(** * gowut (package gwu): state buttons, text boxes and tab panels

  A shallow embedding of three files of the gwu package,

    - chkbox_radio.go   (CheckBox, RadioButton, RadioGroup, SwitchButton)
    - textbox_pwbox.go  (TextBox, PasswBox)
    - tabpanel.go       (TabPanel and its TabBar)

  together with the properties the specification states about them.

  Go objects that are shared through pointers (radio buttons and their
  group, the components held by a panel) live in explicit stores keyed by
  component id; a method becomes a function from store to store.  The
  result [None] is a call that does not return: a Go panic (a method called
  on a nil interface value), or the container refusing a component that has
  an owner.  In the store of buttons it is also the result for a receiver
  that is not allocated, which no Go value denotes. *)

From Stdlib Require Import ZArith Lia.
From Stdlib Require Import Ascii.
From Stdlib Require DecimalString DecimalN DecimalPos.
From stdpp Require Import base option list gmap strings.

Open Scope Z_scope.
Open Scope string_scope.

(** Component ids are Go [int]s ([type ID int]), and so are the indices of a
    panel.  The arithmetic the three files do on them is [c.selected--] where
    [c.selected > i >= 0] and [i - 1] where [i > 0]; neither wraps around, so
    [Z] is used as it is. *)
Abbreviation ID := Z (only parsing).

(** ** Style classes (style.go is not among the sources) *)
Module Style.

(** Modelled from the spec: the attribute/style bag of a component
    ("set/remove/query ... CSS-class membership").  style.go is missing;
    the bag is the list of class names of the component.  [AddClass] adds a
    name that is not yet a member, [RemoveClass] ends the membership of a
    name, [SetClass] makes the name the only member. *)
Definition AddClass (class : string) (classes : list string) : list string :=
  if bool_decide (class ∈ classes) then classes else classes ++ [class].

Definition RemoveClass (class : string) (classes : list string) : list string :=
  filter (λ class_, class_ ≠ class) classes.

Definition SetClass (class : string) (classes : list string) : list string :=
  [class].

Definition HasClass (class : string) (classes : list string) : bool :=
  bool_decide (class ∈ classes).

End Style.

(** ** The inbound request (Go standard library: net/http and strconv) *)
Module Http.

(** [http.Request.Form] once parsed: [url.Values], a
    [map[string][]string]. *)
Abbreviation Request := (gmap string (list string)) (only parsing).

(** [Request.FormValue]: the first value of the named parameter, the empty
    string when there is none. *)
Definition FormValue (r : Request) (key : string) : string :=
  match r !! key with
  | Some (v :: _) => v
  | _ => ""
  end.

(** [strconv.ParseBool]; [None] is a non-nil [err]. *)
Definition ParseBool (str : string) : option bool :=
  if bool_decide (str ∈ ["1"; "t"; "T"; "true"; "TRUE"; "True"]) then Some true
  else if bool_decide (str ∈ ["0"; "f"; "F"; "false"; "FALSE"; "False"]) then Some false
  else None.

End Http.

(** ** Integers as text (Go standard library: strconv) *)
Module Strconv.

(** The range of a Go [int] where it has 64 bits. *)
Definition minInt : Z := - 2 ^ 63.
Definition maxInt : Z := 2 ^ 63 - 1.

(** [strconv.Itoa]: the decimal digits, after a minus sign for a negative
    number. *)
Definition Itoa (i : Z) : string :=
  if bool_decide (i < 0) then
    String "-"%char (DecimalString.NilEmpty.string_of_uint (N.to_uint (Z.to_N (- i))))
  else DecimalString.NilEmpty.string_of_uint (N.to_uint (Z.to_N i)).

(** [strconv.Atoi]: an optional sign, then one decimal digit or more and
    nothing else; [None] is a non-nil [err] (a syntax error, or a value
    outside the range of [int]). *)
Definition Atoi (s : string) : option Z :=
  let '(neg, digits) :=
    match s with
    | String "-"%char rest => (true, rest)
    | String "+"%char rest => (false, rest)
    | _ => (false, s)
    end in
  match digits with
  | EmptyString => None
  | _ =>
      d ← DecimalString.NilEmpty.uint_of_string digits;
      let n := Z.of_N (N.of_uint d) in
      let n := if neg : bool then - n else n in
      if bool_decide (minInt ≤ n ≤ maxInt)%Z then Some n else None
  end.

End Strconv.

(** ** chkbox_radio.go: CheckBox, RadioButton and RadioGroup *)
Module StateButton.
Import Style Http.

(** A [RadioGroup] value is a pointer to a [radioGroupImpl]; [loc] is its
    address. *)
Abbreviation loc := positive (only parsing).

(** [radioGroupImpl].  The two [RadioButton] fields hold a button (its
    component id) or nil. *)
Record radioGroupImpl := mkRadioGroup {
  name : string;
  selected : option ID;
  prevSelected : option ID
}.

(** [stateButtonImpl].  Of the embedded [buttonImpl] the text and the style
    classes are kept, and the component id is the key of the button in the
    store. *)
Record stateButtonImpl := mkStateButton {
  text : string;
  classes : list string;
  state : bool;
  inputType : string;
  group : option loc;
  inputId : ID
}.

(** The objects allocated so far.  Modelled from the spec: [nextCompId]
    (comp.go is missing) hands out "opaque unique" ids, "monotonic,
    process-lifetime-unique": a counter. *)
Record heap := mkHeap {
  buttons : gmap Z stateButtonImpl;
  groups : gmap positive radioGroupImpl;
  nextId : ID;
  nextLoc : loc
}.

Definition empty_heap : heap := mkHeap ∅ ∅ 0 1%positive.

Definition set_buttons (f : gmap Z stateButtonImpl → gmap Z stateButtonImpl)
    (h : heap) : heap :=
  mkHeap (f (buttons h)) (groups h) (nextId h) (nextLoc h).

Definition set_groups (f : gmap positive radioGroupImpl → gmap positive radioGroupImpl)
    (h : heap) : heap :=
  mkHeap (buttons h) (f (groups h)) (nextId h) (nextLoc h).

Definition set_state (st : bool) (b : stateButtonImpl) : stateButtonImpl :=
  mkStateButton (text b) (classes b) st (inputType b) (group b) (inputId b).

Definition set_classes (f : list string → list string) (b : stateButtonImpl)
    : stateButtonImpl :=
  mkStateButton (text b) (f (classes b)) (state b) (inputType b) (group b) (inputId b).

(** [NewRadioGroup] *)
Definition NewRadioGroup (name : string) (h : heap) : loc * heap :=
  let r := nextLoc h in
  (r, mkHeap (buttons h) (<[r := mkRadioGroup name None None]> (groups h))
             (nextId h) (Pos.succ r)).

(** [newStateButtonImpl]: the component id is drawn by [newButtonImpl],
    then the id of the input tag. *)
Definition newStateButtonImpl (text inputType : string) (group : option loc)
    (h : heap) : ID * heap :=
  let id := nextId h in
  let inputId := id + 1 in
  (id, mkHeap (<[id := mkStateButton text [] false inputType group inputId]> (buttons h))
              (groups h) (id + 2) (nextLoc h)).

(** [NewCheckBox] *)
Definition NewCheckBox (text : string) (h : heap) : ID * heap :=
  let '(c, h) := newStateButtonImpl text "checkbox" None h in
  (c, set_buttons (alter (set_classes (AddClass "gwu-CheckBox")) c) h).

(** [NewRadioButton] *)
Definition NewRadioButton (text : string) (group : option loc) (h : heap)
    : ID * heap :=
  let '(c, h) := newStateButtonImpl text "radio" group h in
  (c, set_buttons (alter (set_classes (AddClass "gwu-RadioButton")) c) h).

(** The receiver of a method is a button or a group of the store; the
    result is [None] only for a receiver that is not allocated, which no Go
    value denotes. *)

(** [radioGroupImpl.Selected] *)
Definition Selected (r : loc) (h : heap) : option (option ID) :=
  selected <$> groups h !! r.

(** [radioGroupImpl.PrevSelected] *)
Definition PrevSelected (r : loc) (h : heap) : option (option ID) :=
  prevSelected <$> groups h !! r.

(** [radioGroupImpl.setSelected] *)
Definition setSelected (r : loc) (sel : option ID) (h : heap) : option heap :=
  g ← groups h !! r;
  Some (set_groups <[r := mkRadioGroup (name g) sel (selected g)]> h).

(** [stateButtonImpl.State] *)
Definition State (c : ID) (h : heap) : option bool :=
  state <$> buttons h !! c.

(** [stateButtonImpl.Group] *)
Definition Group (c : ID) (h : heap) : option (option loc) :=
  group <$> buttons h !! c.

(** [stateButtonImpl.setStateProp] *)
Definition setStateProp (c : ID) (st : bool) (h : heap) : option heap :=
  b ← buttons h !! c;
  Some (set_buttons <[c := set_state st b]> h).

(** Modelled from the spec: [Equals] of the component base (comp.go is
    missing) compares "by identity", the id of a component being
    "immutable once assigned; never reused". *)
Definition Equals (c c2 : ID) : bool := bool_decide (c = c2).

(** [stateButtonImpl.SetState] *)
Definition SetState (c : ID) (st : bool) (h : heap) : option heap :=
  b ← buttons h !! c;
  if bool_decide (state b = st) then Some h
  else
    h ← match group b with
        | Some g =>
            sel ← Selected g h;
            match sel with
            | None =>
                if st then setSelected g (Some c) h else Some h
            | Some sel =>
                if st then
                  if negb (Equals sel c) then
                    h ← setStateProp sel false h;
                    setSelected g (Some c) h
                  else Some h
                else setSelected g None h
            end
        | None => Some h
        end;
    setStateProp c st h.

Section Preprocess.
(** The name of the request parameter that carries the component value
    (the constant is declared outside the three files). *)
Variable PARAM_COMP_VALUE : string.

(** [stateButtonImpl.preprocessEvent] *)
Definition preprocessEvent (c : ID) (r : Request) (h : heap) : option heap :=
  let value := FormValue r PARAM_COMP_VALUE in
  if bool_decide (String.length value = 0%nat) then Some h
  else
    match ParseBool value with
    | Some v => SetState c v h
    | None => Some h
    end.
End Preprocess.

(** The calls a client of the package can make on state buttons and radio
    groups.  A [RadioGroup] handed to [NewRadioButton] is nil or a group made
    by [NewRadioGroup] earlier. *)
Inductive call :=
  | CallNewRadioGroup (name : string)
  | CallNewCheckBox (text : string)
  | CallNewRadioButton (text : string) (group : option loc)
  | CallSetState (c : ID) (st : bool).

Definition do_call (k : call) (h : heap) : option heap :=
  match k with
  | CallNewRadioGroup name => Some (NewRadioGroup name h).2
  | CallNewCheckBox text => Some (NewCheckBox text h).2
  | CallNewRadioButton text None => Some (NewRadioButton text None h).2
  | CallNewRadioButton text (Some g) =>
      _ ← groups h !! g; Some (NewRadioButton text (Some g) h).2
  | CallSetState c st => SetState c st h
  end.

Fixpoint do_calls (ks : list call) (h : heap) : option heap :=
  match ks with
  | [] => Some h
  | k :: ks => h ← do_call k h; do_calls ks h
  end.

(** The paths through [SetState], as equations between the store before
    and the store after: the guard of each branch and the setters it calls. *)
Inductive SetState_case (c : ID) (st : bool) (h h' : heap) : Prop :=
  | case_same :
      State c h = Some st → h' = h → SetState_case c st h h'
  | case_ungrouped :
      State c h = Some (negb st) → Group c h = Some None →
      setStateProp c st h = Some h' → SetState_case c st h h'
  | case_first g h1 :
      State c h = Some false → st = true → Group c h = Some (Some g) →
      Selected g h = Some None →
      setSelected g (Some c) h = Some h1 →
      setStateProp c true h1 = Some h' → SetState_case c st h h'
  | case_off_unselected g :
      State c h = Some true → st = false → Group c h = Some (Some g) →
      Selected g h = Some None →
      setStateProp c false h = Some h' → SetState_case c st h h'
  | case_switch g sel h1 h2 :
      State c h = Some false → st = true → Group c h = Some (Some g) →
      Selected g h = Some (Some sel) → sel ≠ c →
      setStateProp sel false h = Some h1 →
      setSelected g (Some c) h1 = Some h2 →
      setStateProp c true h2 = Some h' → SetState_case c st h h'
  | case_on_selected g :
      State c h = Some false → st = true → Group c h = Some (Some g) →
      Selected g h = Some (Some c) →
      setStateProp c true h = Some h' → SetState_case c st h h'
  | case_off g sel h1 :
      State c h = Some true → st = false → Group c h = Some (Some g) →
      Selected g h = Some (Some sel) →
      setSelected g None h = Some h1 →
      setStateProp c false h1 = Some h' → SetState_case c st h h'.

(** [c] is a member of the group [g] and its state is [true]. *)
Definition member_on (g : loc) (c : ID) (h : heap) : Prop :=
  Group c h = Some (Some g) ∧ State c h = Some true.

(** The invariant of the store, in terms of what the methods answer: the
    group of a button is allocated, the members of a group that are on are
    its selected button and only they, and the counters lie above what is
    allocated. *)
Record heap_inv (h : heap) : Prop := mkHeapInv {
  inv_group : ∀ c g, Group c h = Some (Some g) → is_Some (Selected g h);
  inv_on : ∀ c g, member_on g c h → Selected g h = Some (Some c);
  inv_sel : ∀ g c, Selected g h = Some (Some c) → member_on g c h;
  inv_nextId : ∀ c, is_Some (State c h) → c < nextId h;
  inv_nextLoc : ∀ g, is_Some (Selected g h) → (g < nextLoc h)%positive
}.

(** The scenario of the spec: a group [g] with the buttons A (id 0) and B
    (id 2); A is switched on, then B. *)
Definition example_calls : list call :=
  [CallNewRadioGroup "g";
   CallNewRadioButton "A" (Some 1%positive);
   CallNewRadioButton "B" (Some 1%positive);
   CallSetState 0 true;
   CallSetState 2 true].

Definition example_heap : heap :=
  Eval vm_compute in default empty_heap (do_calls example_calls empty_heap).

(** The scenario continued: A is switched on again. *)
Definition example_heap_A_again : heap :=
  Eval vm_compute in default empty_heap (SetState 0 true example_heap).

(** [radioGroupImpl.Name] *)
Definition Name (r : loc) (h : heap) : option string :=
  name <$> groups h !! r.

(** The previous selection of every group is a member of the group that is
    off. *)
Definition prev_off (h : heap) : Prop :=
  ∀ g p, PrevSelected g h = Some (Some p) →
         Group p h = Some (Some g) ∧ State p h = Some false.

End StateButton.

(** ** chkbox_radio.go: SwitchButton *)
Module SwitchButton.
Import Style Http.

(** Of a [buttonImpl] (button.go is missing) the text and the style classes
    are kept. *)
Record buttonImpl := mkButton {
  text : string;
  classes : list string
}.

(** Modelled from the spec: [newButtonImpl] (button.go is missing) makes the
    "visual/label surface" of one side, a button holding its text. *)
Definition newButtonImpl (valueProviderJs text : string) : buttonImpl :=
  mkButton text [].

(** [switchButtonImpl]; [classes] are the style classes of the embedded
    [compImpl].  The two sub-buttons are reachable through the switch only,
    so they are held by value. *)
Record switchButtonImpl := mkSwitchButton {
  classes_ : list string;
  onButton : buttonImpl;
  offButton : buttonImpl;
  state : bool
}.

Definition set_button_classes (f : list string → list string) (b : buttonImpl)
    : buttonImpl :=
  mkButton (text b) (f (classes b)).

(** [switchButtonImpl.State] *)
Definition State (c : switchButtonImpl) : bool := state c.

(** [switchButtonImpl.SetState] *)
Definition SetState (st : bool) (c : switchButtonImpl) : switchButtonImpl :=
  if bool_decide (state c = st) then c
  else
    let c := mkSwitchButton (classes_ c) (onButton c) (offButton c) st in
    if state c then
      mkSwitchButton (classes_ c)
        (set_button_classes (SetClass "gwu-SwitchButton-On-Active") (onButton c))
        (set_button_classes (SetClass "gwu-SwitchButton-Off-Inactive") (offButton c))
        (state c)
    else
      mkSwitchButton (classes_ c)
        (set_button_classes (SetClass "gwu-SwitchButton-On-Inactive") (onButton c))
        (set_button_classes (SetClass "gwu-SwitchButton-Off-Active") (offButton c))
        (state c).

(** [NewSwitchButton]: built with state [true], then switched off. *)
Definition NewSwitchButton : switchButtonImpl :=
  let onButton := newButtonImpl "" "ON" in
  let offButton := newButtonImpl "" "OFF" in
  let c := mkSwitchButton [] onButton offButton true in
  let c := mkSwitchButton (AddClass "gwu-SwitchButton" (classes_ c))
             (onButton) (offButton) (state c) in
  SetState false c.

(** [switchButtonImpl.On], [switchButtonImpl.Off] *)
Definition On (c : switchButtonImpl) : string := text (onButton c).
Definition Off (c : switchButtonImpl) : string := text (offButton c).

(** [switchButtonImpl.SetOnOff] *)
Definition SetOnOff (on off : string) (c : switchButtonImpl) : switchButtonImpl :=
  mkSwitchButton (classes_ c)
    (mkButton on (classes (onButton c)))
    (mkButton off (classes (offButton c)))
    (state c).

Section Preprocess.
Variable PARAM_COMP_VALUE : string.

(** [switchButtonImpl.preprocessEvent] *)
Definition preprocessEvent (r : Request) (c : switchButtonImpl) : switchButtonImpl :=
  let value := FormValue r PARAM_COMP_VALUE in
  if bool_decide (String.length value = 0%nat) then c
  else
    match ParseBool value with
    | Some v => SetState v c
    | None => c
    end.
End Preprocess.

(** The calls a client of the package can make on a switch button that
    change it. *)
Inductive call :=
  | CallSetState (st : bool)
  | CallSetOnOff (on off : string).

Definition do_call (k : call) (c : switchButtonImpl) : switchButtonImpl :=
  match k with
  | CallSetState st => SetState st c
  | CallSetOnOff on off => SetOnOff on off c
  end.

Definition do_calls (ks : list call) (c : switchButtonImpl) : switchButtonImpl :=
  foldl (λ c k, do_call k c) c ks.

(** The classes the spec's table gives the two sub-buttons for a state. *)
Definition on_classes (st : bool) : list string :=
  if st then ["gwu-SwitchButton-On-Active"] else ["gwu-SwitchButton-On-Inactive"].

Definition off_classes (st : bool) : list string :=
  if st then ["gwu-SwitchButton-Off-Inactive"] else ["gwu-SwitchButton-Off-Active"].

Definition styled (c : switchButtonImpl) : Prop :=
  classes (onButton c) = on_classes (state c) ∧
  classes (offButton c) = off_classes (state c).

End SwitchButton.

(** ** textbox_pwbox.go: TextBox and PasswBox *)
Module TextBox.
Import Style Http.

(** [textBoxImpl]; of the embedded implementations the style classes and the
    text ([hasTextImpl.text]) are kept. *)
Record textBoxImpl := mkTextBox {
  classes : list string;
  text : string;
  isPassw : bool;
  rows : Z;
  cols : Z
}.

(** [newTextBoxImpl] *)
Definition newTextBoxImpl (valueProviderJs text : string) (isPassw : bool)
    : textBoxImpl :=
  mkTextBox [] text isPassw 1 20.

Definition add_class (class : string) (c : textBoxImpl) : textBoxImpl :=
  mkTextBox (AddClass class (classes c)) (text c) (isPassw c) (rows c) (cols c).

(** [NewTextBox] *)
Definition NewTextBox (text : string) : textBoxImpl :=
  add_class "gwu-TextBox" (newTextBoxImpl "encodeURIComponent(this.value)" text false).

(** [NewPasswBox] *)
Definition NewPasswBox (text : string) : textBoxImpl :=
  add_class "gwu-PasswBox" (newTextBoxImpl "encodeURIComponent(this.value)" text true).

Definition set_text (value : string) (c : textBoxImpl) : textBoxImpl :=
  mkTextBox (classes c) value (isPassw c) (rows c) (cols c).

Section Preprocess.
Variable PARAM_COMP_VALUE : string.

(** [textBoxImpl.preprocessEvent] *)
Definition preprocessEvent (r : Request) (c : textBoxImpl) : textBoxImpl :=
  let value := FormValue r PARAM_COMP_VALUE in
  if bool_decide (0 < String.length value)%nat then set_text value c
  else
    match r !! PARAM_COMP_VALUE with
    | Some values =>
        match values with
        | v :: _ => set_text v c
        | [] => c
        end
    | None => c
    end.
End Preprocess.

(** Modelled from the spec: the attributes of the component base (comp.go
    is missing), a "mapping of HTML-attribute-name -> string", "keys unique",
    with "set/remove/query" of a string attribute.  [Attr] answers the empty
    string for a name without a value. *)
Definition Attr (name : string) (attrs : gmap string string) : string :=
  default "" (attrs !! name).

Definition SetAttr (name value : string) (attrs : gmap string string)
    : gmap string string :=
  <[name := value]> attrs.

(** The four methods below read and write the attributes of the text box
    and nothing else of it; the receiver is given by its attributes. *)

(** [textBoxImpl.ReadOnly] *)
Definition ReadOnly (attrs : gmap string string) : bool :=
  let ro := Attr "readonly" attrs in
  bool_decide (0 < String.length ro)%nat.

(** [textBoxImpl.SetReadOnly] *)
Definition SetReadOnly (readOnly : bool) (attrs : gmap string string)
    : gmap string string :=
  if readOnly then SetAttr "readonly" "readonly" attrs
  else SetAttr "readonly" "" attrs.

(** [textBoxImpl.MaxLength] *)
Definition MaxLength (attrs : gmap string string) : Z :=
  let ml := Attr "maxlength" attrs in
  if bool_decide (0 < String.length ml)%nat then
    match Strconv.Atoi ml with
    | Some i => i
    | None => -1
    end
  else -1.

(** [textBoxImpl.SetMaxLength] *)
Definition SetMaxLength (maxLength : Z) (attrs : gmap string string)
    : gmap string string :=
  if bool_decide (maxLength < 0) then SetAttr "maxlength" "" attrs
  else SetAttr "maxlength" (Strconv.Itoa maxLength) attrs.

End TextBox.

(** ** tabpanel.go: TabPanel and TabBar *)
Module TabPanel.
Import Style.

(** What components share through pointers: the parent of a component (no
    entry is a nil parent), its style classes (no entry is a style without
    classes) and the id counter. *)
Record store := mkStore {
  parent : gmap Z Z;
  classes : gmap Z (list string);
  nextId : ID
}.

(** [c.Style()] followed by a method of the style. *)
Definition Classes (c : ID) (s : store) : list string :=
  default [] (classes s !! c).

Definition Style_update (c : ID) (f : list string → list string) (s : store) : store :=
  mkStore (parent s) (<[c := f (Classes c s)]> (classes s)) (nextId s).

(** [setParent] *)
Definition setParent (c : ID) (p : option ID) (s : store) : store :=
  match p with
  | Some p => mkStore (<[c := p]> (parent s)) (classes s) (nextId s)
  | None => mkStore (delete c (parent s)) (classes s) (nextId s)
  end.

(** Modelled from the spec: [panelImpl], the Container of panel.go, which is
    missing.  It "owns an ordered sequence of child Components"; "a child has
    at most one owning container at a time (ownership transfer on re-add is
    not supported -- must be removed first)".  [panelImpl_Add] is [addChild]:
    it "appends and sets ownership (fails or is a no-op if c already owned
    elsewhere -- implementation choice ...)".  Here it fails, and the caller
    with it: [tabPanelImpl.Add] uses no result of the two [Add] calls it
    makes, so under the other choice it would go on and lengthen one of its
    two panels alone, against the invariant the spec states for the tab
    panel.  [panelImpl_Remove] is [removeChild]: it "detaches by identity, returns
    whether found", and "the container relinquishes ownership".  [CompAt] is
    [childAt], [CompIdx] is [indexOf]; a request for "an index or component
    not present" is answered by "a boolean/failure indicator rather than
    raising": nil ([None]) and -1. *)
Record panelImpl := mkPanel {
  id : ID;
  comps : list ID
}.

Definition CompsCount (c : panelImpl) : Z := Z.of_nat (length (comps c)).

Definition CompAt (c : panelImpl) (idx : Z) : option ID :=
  if bool_decide (idx < 0) then None else comps c !! Z.to_nat idx.

Definition CompIdx (c : panelImpl) (c2 : ID) : Z :=
  match list_find (λ c3, c3 = c2) (comps c) with
  | Some (i, _) => Z.of_nat i
  | None => -1
  end.

Definition panelImpl_Add (c2 : ID) (c : panelImpl) (s : store)
    : option (panelImpl * store) :=
  match parent s !! c2 with
  | Some _ => None
  | None => Some (mkPanel (id c) (comps c ++ [c2]), setParent c2 (Some (id c)) s)
  end.

Definition panelImpl_Remove (c2 : ID) (c : panelImpl) (s : store)
    : bool * (panelImpl * store) :=
  let i := CompIdx c c2 in
  if bool_decide (i < 0) then (false, (c, s))
  else (true, (mkPanel (id c) (delete (Z.to_nat i) (comps c)), setParent c2 None s)).

Definition panelImpl_Clear (c : panelImpl) (s : store) : panelImpl * store :=
  (mkPanel (id c) [], foldr (λ c2 s, setParent c2 None s) s (comps c)).

(** [TabBarPlacement] *)
Inductive TabBarPlacement :=
  | TB_PLACEMENT_TOP
  | TB_PLACEMENT_BOTTOM
  | TB_PLACEMENT_LEFT
  | TB_PLACEMENT_RIGHT.

(** [tabPanelImpl].  [panel] is the embedded [panelImpl] (the content
    components), [tabBarImpl] the panel embedded in the tab bar (the tab
    components).  The cell formatters, the attributes and the layout of the
    two panels are left out: no method below reads them. *)
Record tabPanelImpl := mkTabPanel {
  panel : panelImpl;
  tabBarImpl : panelImpl;
  tabBarPlacement : TabBarPlacement;
  selected : Z
}.

Definition placement_class (p : TabBarPlacement) : string :=
  match p with
  | TB_PLACEMENT_TOP => "gwu-TabBar-Top"
  | TB_PLACEMENT_BOTTOM => "gwu-TabBar-Bottom"
  | TB_PLACEMENT_LEFT => "gwu-TabBar-Left"
  | TB_PLACEMENT_RIGHT => "gwu-TabBar-Right"
  end.

(** [tabPanelImpl.SetTabBarPlacement] *)
Definition SetTabBarPlacement (p : TabBarPlacement) (c : tabPanelImpl) (s : store)
    : tabPanelImpl * store :=
  let tb := id (tabBarImpl c) in
  let s := Style_update tb (RemoveClass (placement_class (tabBarPlacement c))) s in
  let c := mkTabPanel (panel c) (tabBarImpl c) p (selected c) in
  (c, Style_update tb (AddClass (placement_class p)) s).

(** [NewTabPanel]; the zero value of the placement is [TB_PLACEMENT_TOP]. *)
Definition NewTabPanel (s : store) : tabPanelImpl * store :=
  let p := mkPanel (nextId s) [] in
  let tb := mkPanel (nextId s + 1) [] in
  let s := mkStore (parent s) (classes s) (nextId s + 2) in
  let c := mkTabPanel p tb TB_PLACEMENT_TOP (-1) in
  let s := Style_update (id tb) (AddClass "gwu-TabBar") s in
  let s := setParent (id tb) (Some (id p)) s in
  let '(c, s) := SetTabBarPlacement TB_PLACEMENT_TOP c s in
  (c, Style_update (id p) (AddClass "gwu-TabPanel") s).

(** [tabPanelImpl.Selected] *)
Definition Selected (c : tabPanelImpl) : Z := selected c.

Definition set_selected (idx : Z) (c : tabPanelImpl) : tabPanelImpl :=
  mkTabPanel (panel c) (tabBarImpl c) (tabBarPlacement c) idx.

(** [tabPanelImpl.SetSelected].  [CompAt] answers nil for an index outside
    the tab bar, and [Style()] called on nil panics. *)
Definition SetSelected (idx : Z) (c : tabPanelImpl) (s : store)
    : option (tabPanelImpl * store) :=
  if bool_decide (idx >= CompsCount (panel c)) then Some (c, s)
  else
    s ← (if bool_decide (selected c >= 0) then
           t ← CompAt (tabBarImpl c) (selected c);
           let s := Style_update t (RemoveClass "gwu-TabBar-Selected") s in
           Some (Style_update t (AddClass "gwu-TabBar-NotSelected") s)
         else Some s);
    let c := set_selected idx c in
    if bool_decide (selected c >= 0) then
      t ← CompAt (tabBarImpl c) idx;
      let s := Style_update t (RemoveClass "gwu-TabBar-NotSelected") s in
      Some (c, Style_update t (AddClass "gwu-TabBar-Selected") s)
    else Some (c, s).

(** The click handler that [Add] attaches to the tab of [content]. *)
Definition click_handler (content : ID) (c : tabPanelImpl) (s : store)
    : option (tabPanelImpl * store) :=
  SetSelected (CompIdx (panel c) content) c s.

(** [tabPanelImpl.Add].  The class given to the cell formatter of the
    content is left out with the cell formatters; the handler attached to the
    tab is [click_handler content]. *)
Definition Add (tab content : ID) (c : tabPanelImpl) (s : store)
    : option (tabPanelImpl * store) :=
  '(tb, s) ← panelImpl_Add tab (tabBarImpl c) s;
  '(p, s) ← panelImpl_Add content (panel c) s;
  let c := mkTabPanel p tb (tabBarPlacement c) (selected c) in
  let s := Style_update tab (AddClass "gwu-TabBar-NotSelected") s in
  if bool_decide (CompsCount (panel c) = 1) then SetSelected 0 c s
  else Some (c, s).

(** [tabPanelImpl.Remove].  The method calls itself once, for a tab
    component, with the content component of the same index; [fuel] bounds
    the depth of the calls.  A nil component (the answer of [CompAt] outside
    the panel) as the argument of a call is a panic. *)
Fixpoint Remove_fuel (fuel : nat) (c2 : ID) (c : tabPanelImpl) (s : store)
    : option (bool * (tabPanelImpl * store)) :=
  match fuel with
  | O => None
  | S fuel =>
      let i := CompIdx (panel c) c2 in
      if bool_decide (i < 0) then
        let i := CompIdx (tabBarImpl c) c2 in
        if bool_decide (i < 0) then Some (false, (c, s))
        else
          c3 ← CompAt (panel c) i;
          Remove_fuel fuel c3 c s
      else
        t ← CompAt (tabBarImpl c) i;
        let '(_, (tb, s)) := panelImpl_Remove t (tabBarImpl c) s in
        let '(_, (p, s)) := panelImpl_Remove c2 (panel c) s in
        let c := mkTabPanel p tb (tabBarPlacement c) (selected c) in
        '(c, s) ←
          (if bool_decide (i < selected c) then
             Some (set_selected (selected c - 1) c, s)
           else if bool_decide (i = selected c) then
             if bool_decide (i < CompsCount (panel c)) then SetSelected i c s
             else if bool_decide (i > 0) then SetSelected (i - 1) c s
             else SetSelected (-1) c s
           else Some (c, s));
        Some (true, (c, s))
  end.

Definition Remove (c2 : ID) (c : tabPanelImpl) (s : store)
    : option (bool * (tabPanelImpl * store)) :=
  Remove_fuel 2 c2 c s.

(** [tabBarImpl.Remove]; the receiver is the tab bar of [c].  The parent of
    the tab bar is a TabPanel when it is [c] itself. *)
Definition tabBarImpl_Remove (c2 : ID) (c : tabPanelImpl) (s : store)
    : option (bool * (tabPanelImpl * store)) :=
  let i := CompIdx (tabBarImpl c) c2 in
  if bool_decide (i < 0) then Some (false, (c, s))
  else
    let own :=
      let '(b, (tb, s)) := panelImpl_Remove c2 (tabBarImpl c) s in
      Some (b, (mkTabPanel (panel c) tb (tabBarPlacement c) (selected c), s)) in
    match parent s !! id (tabBarImpl c) with
    | Some p =>
        if bool_decide (p = id (panel c)) then
          c3 ← CompAt (panel c) i;
          Remove c3 c s
        else own
    | None => own
    end.

(** [tabPanelImpl.Clear] *)
Definition Clear (c : tabPanelImpl) (s : store) : option (tabPanelImpl * store) :=
  let '(tb, s) := panelImpl_Clear (tabBarImpl c) s in
  let '(p, s) := panelImpl_Clear (panel c) s in
  SetSelected (-1) (mkTabPanel p tb (tabBarPlacement c) (selected c)) s.


(** The calls on a tab panel and on its tab bar over which the pairing of
    tabs and contents is stated ([AddString] is [Add] with a new label as the
    tab).  Of the methods of the tab bar only [Remove] is among them, the one
    the tab bar overrides to keep the pairs; the methods it has unchanged
    from [panelImpl] change the tab bar alone, as [tabBarImpl_Clear] does,
    and are not calls of this type. *)
Inductive call :=
  | CallAdd (tab content : ID)
  | CallRemove (c2 : ID)
  | CallTabBarRemove (c2 : ID)
  | CallClear
  | CallSetSelected (idx : Z)
  | CallClick (content : ID)
  | CallSetTabBarPlacement (p : TabBarPlacement).

Definition do_call (k : call) (c : tabPanelImpl) (s : store)
    : option (tabPanelImpl * store) :=
  match k with
  | CallAdd tab content => Add tab content c s
  | CallRemove c2 => snd <$> Remove c2 c s
  | CallTabBarRemove c2 => snd <$> tabBarImpl_Remove c2 c s
  | CallClear => Clear c s
  | CallSetSelected idx => SetSelected idx c s
  | CallClick content => click_handler content c s
  | CallSetTabBarPlacement p => Some (SetTabBarPlacement p c s)
  end.

Fixpoint do_calls (ks : list call) (c : tabPanelImpl) (s : store)
    : option (tabPanelImpl * store) :=
  match ks with
  | [] => Some (c, s)
  | k :: ks => '(c, s) ← do_call k c s; do_calls ks c s
  end.





(** <<remove>> in the words of the spec, on the sequence of (tab, content)
    pairs: it "accepts either a content component or its paired selector;
    resolves to the pair and removes both"; through the tab bar it accepts
    the tab.  <<add>> appends the pair, <<clear>> empties the sequence. *)
Definition spec_step (ps : list (ID * ID)) (k : call) : list (ID * ID) :=
  match k with
  | CallAdd tab content => ps ++ [(tab, content)]
  | CallRemove c2 => filter (λ p, p.1 ≠ c2 ∧ p.2 ≠ c2) ps
  | CallTabBarRemove c2 => filter (λ p, p.1 ≠ c2) ps
  | CallClear => []
  | _ => ps
  end.

Definition spec_pairs (ks : list call) : list (ID * ID) :=
  foldl spec_step [] ks.

(** The invariant of a tab panel and the store: the two sequences have the
    same length, no component occurs twice, each child is owned by the panel
    that holds it, the tab bar is owned by the tab panel, and the selected
    index is negative or an index of the content sequence. *)
Record wf (c : tabPanelImpl) (s : store) : Prop := mkWf {
  wf_length : length (comps (tabBarImpl c)) = length (comps (panel c));
  wf_tabs_nodup : NoDup (comps (tabBarImpl c));
  wf_comps_nodup : NoDup (comps (panel c));
  wf_tabs_parent : ∀ x, x ∈ comps (tabBarImpl c) →
                     parent s !! x = Some (id (tabBarImpl c));
  wf_comps_parent : ∀ x, x ∈ comps (panel c) →
                      parent s !! x = Some (id (panel c));
  wf_ids : id (tabBarImpl c) ≠ id (panel c);
  wf_tabBar_parent : parent s !! id (tabBarImpl c) = Some (id (panel c));
  wf_tabBar_notin : id (tabBarImpl c) ∉ comps (panel c);
  wf_selected : selected c < CompsCount (panel c)
}.

(** The two sequences of the panel are the sequence of pairs [ps], tab and
    content of a pair at the same index. *)
Definition refines (ps : list (ID * ID)) (c : tabPanelImpl) : Prop :=
  comps (tabBarImpl c) = ps.*1 ∧ comps (panel c) = ps.*2.

(** A store without components; three pairs, the tabs 1, 3, 5 with the
    contents 2, 4, 6. *)
Definition empty_store : store := mkStore ∅ ∅ 100.

(** The calls [ks] made on a new tab panel, created in the store [s0]. *)
Definition run_from (s0 : store) (ks : list call) : option (tabPanelImpl * store) :=
  let '(c, s) := NewTabPanel s0 in do_calls ks c s.

Definition run (ks : list call) : option (tabPanelImpl * store) :=
  run_from empty_store ks.


Definition three_tabs : list call := [CallAdd 1 2; CallAdd 3 4; CallAdd 5 6].

(** The new panel; the panel with the single pair (1, 2), which [Add] has
    selected; the panel with the three pairs, the first one selected. *)
Definition new_panel : tabPanelImpl * store :=
  Eval vm_compute in NewTabPanel empty_store.

Definition one_pair : tabPanelImpl * store :=
  Eval vm_compute in default new_panel (run [CallAdd 1 2]).

Definition three_pairs : tabPanelImpl * store :=
  Eval vm_compute in default new_panel (run three_tabs).

(** The three pairs after [Remove] of the content 4. *)
Definition middle_removed : tabPanelImpl * store :=
  Eval vm_compute in default new_panel (run (three_tabs ++ [CallRemove 4])).


Section Render.
(** What [renderContent] writes through methods and constants declared
    outside the three files: the bytes [_STR_TD], what [renderTd] of the
    panel writes for a child, and what [Render] of a child writes. *)
Variable STR_TD : string.
Variable renderTd : panelImpl → ID → string.
Variable Render_child : store → ID → string.

(** [tabPanelImpl.renderContent]; the writer is the text written so far.
    [c.comps[c.selected]] indexes the slice itself: outside it, a panic. *)
Definition renderContent (c : tabPanelImpl) (s : store) (w : string)
    : option string :=
  if bool_decide (selected c >= 0) then
    c2 ← comps (panel c) !! Z.to_nat (selected c);
    let w := w ++ renderTd (panel c) c2 in
    Some (w ++ Render_child s c2)
  else Some (w ++ STR_TD).
End Render.

(** The style classes of the tabs follow the selection: the tab at the
    selected index carries the class of a selected tab, and it is the only
    tab without the class of the others. *)
Definition tabs_styled (c : tabPanelImpl) (s : store) : Prop :=
  ∀ (j : nat) t, comps (tabBarImpl c) !! j = Some t →
    ("gwu-TabBar-NotSelected" ∈ Classes t s ↔ Z.of_nat j ≠ selected c) ∧
    (Z.of_nat j = selected c → "gwu-TabBar-Selected" ∈ Classes t s).

(** Two stores give every component the same classes, the two classes of
    the selection apart. *)
Definition same_classes_but_selection (s s' : store) : Prop :=
  ∀ x class, class ≠ "gwu-TabBar-Selected" → class ≠ "gwu-TabBar-NotSelected" →
             (class ∈ Classes x s' ↔ class ∈ Classes x s).

(** What the calls other than [SetTabBarPlacement] keep: the classes that
    are not those of the selection, the ids of the two panels and the
    placement of the tab bar. *)
Definition kept (c : tabPanelImpl) (s : store) (c' : tabPanelImpl) (s' : store)
    : Prop :=
  same_classes_but_selection s s' ∧
  id (tabBarImpl c') = id (tabBarImpl c) ∧ id (panel c') = id (panel c) ∧
  tabBarPlacement c' = tabBarPlacement c.

(** The tab bar carries the class of its placement and of no other
    placement. *)
Definition placement_styled (c : tabPanelImpl) (s : store) : Prop :=
  ∀ p, placement_class p ∈ Classes (id (tabBarImpl c)) s ↔
       p = tabBarPlacement c.

(** The classes the tab bar and the panel carry for themselves. *)
Definition own_classes (c : tabPanelImpl) (s : store) : Prop :=
  placement_styled c s ∧
  "gwu-TabBar" ∈ Classes (id (tabBarImpl c)) s ∧
  "gwu-TabPanel" ∈ Classes (id (panel c)) s.

(** The three pairs with the tab bar moved to the left. *)
Definition placed_left : tabPanelImpl * store :=
  Eval vm_compute in
    default new_panel
      (run (three_tabs ++ [CallSetTabBarPlacement TB_PLACEMENT_LEFT])).

End TabPanel.

#[local] Set Warnings "-clear-no-such-hyp".

(** * Facts about state buttons and radio groups *)
Section StateButtonFacts.
Import StateButton.

Lemma SetState_same c st h b :
  buttons h !! c = Some b → state b = st → SetState c st h = Some h.
Proof.
  intros Hb Hst. unfold SetState. rewrite Hb. simpl.
  by rewrite bool_decide_eq_true_2.
Qed.

(** *** What the two setters change *)

Lemma setStateProp_is_Some c st h :
  is_Some (State c h) → is_Some (setStateProp c st h).
Proof.
  unfold State, setStateProp. intros [x Hx].
  destruct (buttons h !! c); [by eexists|done].
Qed.

Lemma setStateProp_State c st h h' c' :
  setStateProp c st h = Some h' →
  State c' h' = if decide (c' = c) then Some st else State c' h.
Proof.
  unfold setStateProp, State. destruct (buttons h !! c) eqn:Hb; [|done].
  intros [= <-]. simpl. case_decide as Hc.
  - subst. by rewrite lookup_insert_eq.
  - by rewrite lookup_insert_ne.
Qed.

Lemma setStateProp_Group c st h h' c' :
  setStateProp c st h = Some h' → Group c' h' = Group c' h.
Proof.
  unfold setStateProp, Group. destruct (buttons h !! c) eqn:Hb; [|done].
  intros [= <-]. simpl. destruct (decide (c' = c)) as [->|Hc].
  - by rewrite lookup_insert_eq, Hb.
  - by rewrite lookup_insert_ne.
Qed.

Lemma setStateProp_groups c st h h' :
  setStateProp c st h = Some h' →
  groups h' = groups h ∧ nextId h' = nextId h ∧ nextLoc h' = nextLoc h.
Proof.
  unfold setStateProp. destruct (buttons h !! c); [|done]. by intros [= <-].
Qed.

Lemma setStateProp_Selected c st h h' g :
  setStateProp c st h = Some h' → Selected g h' = Selected g h.
Proof. intros (Hg & _)%setStateProp_groups. unfold Selected. by rewrite Hg. Qed.

Lemma setStateProp_PrevSelected c st h h' g :
  setStateProp c st h = Some h' → PrevSelected g h' = PrevSelected g h.
Proof. intros (Hg & _)%setStateProp_groups. unfold PrevSelected. by rewrite Hg. Qed.

Lemma setSelected_is_Some g sel h :
  is_Some (Selected g h) → is_Some (setSelected g sel h).
Proof.
  unfold Selected, setSelected. intros [x Hx].
  destruct (groups h !! g); [by eexists|done].
Qed.

Lemma setSelected_Selected g sel h h' g' :
  setSelected g sel h = Some h' →
  Selected g' h' = if decide (g' = g) then Some sel else Selected g' h.
Proof.
  unfold setSelected, Selected. destruct (groups h !! g) eqn:Hg; [|done].
  intros [= <-]. simpl. case_decide as Hc.
  - subst. by rewrite lookup_insert_eq.
  - by rewrite lookup_insert_ne.
Qed.

Lemma setSelected_PrevSelected g sel h h' g' :
  setSelected g sel h = Some h' →
  PrevSelected g' h' = if decide (g' = g) then Selected g h else PrevSelected g' h.
Proof.
  unfold setSelected, Selected, PrevSelected.
  destruct (groups h !! g) eqn:Hg; [|done].
  intros [= <-]. simpl. case_decide as Hc.
  - subst. by rewrite lookup_insert_eq.
  - by rewrite lookup_insert_ne.
Qed.

Lemma setSelected_buttons g sel h h' :
  setSelected g sel h = Some h' →
  buttons h' = buttons h ∧ nextId h' = nextId h ∧ nextLoc h' = nextLoc h.
Proof.
  unfold setSelected. destruct (groups h !! g); [|done]. by intros [= <-].
Qed.

Lemma setSelected_State g sel h h' c :
  setSelected g sel h = Some h' → State c h' = State c h.
Proof. intros (Hb & _)%setSelected_buttons. unfold State. by rewrite Hb. Qed.

Lemma setSelected_Group g sel h h' c :
  setSelected g sel h = Some h' → Group c h' = Group c h.
Proof. intros (Hb & _)%setSelected_buttons. unfold Group. by rewrite Hb. Qed.

(** Rewrites what the methods answer on the store [h'] that the setter
    equation [H] produced into what they answer on the store before. *)
Ltac before H :=
  lazymatch type of H with
  | setStateProp _ _ _ = Some ?h' =>
      repeat first
        [ rewrite (setStateProp_State _ _ _ _ _ H) in *
        | rewrite (setStateProp_Group _ _ _ _ _ H) in *
        | rewrite (setStateProp_Selected _ _ _ _ _ H) in *
        | rewrite (setStateProp_PrevSelected _ _ _ _ _ H) in *
        | rewrite (proj1 (proj2 (setStateProp_groups _ _ _ _ H))) in *
        | rewrite (proj2 (proj2 (setStateProp_groups _ _ _ _ H))) in * ]
  | setSelected _ _ _ = Some ?h' =>
      repeat first
        [ rewrite (setSelected_State _ _ _ _ _ H) in *
        | rewrite (setSelected_Group _ _ _ _ _ H) in *
        | rewrite (setSelected_Selected _ _ _ _ _ H) in *
        | rewrite (setSelected_PrevSelected _ _ _ _ _ H) in *
        | rewrite (proj1 (proj2 (setSelected_buttons _ _ _ _ H))) in *
        | rewrite (proj2 (proj2 (setSelected_buttons _ _ _ _ H))) in * ]
  end.

Ltac split_decide :=
  repeat match goal with
    | |- context [decide ?P] => destruct (decide P)
    | H : context [decide ?P] |- _ => destruct (decide P)
    end.

Lemma SetState_cases c st h h' :
  SetState c st h = Some h' → SetState_case c st h h'.
Proof.
  unfold SetState. destruct (buttons h !! c) as [b|] eqn:Hb; [|done]. simpl.
  assert (HS : State c h = Some (state b)) by (unfold State; by rewrite Hb).
  assert (HG : Group c h = Some (group b)) by (unfold Group; by rewrite Hb).
  case_bool_decide as Hst.
  { intros [= <-]. apply case_same; [by rewrite HS, Hst|done]. }
  assert (state b = negb st) as Hneg by (destruct (state b), st; done).
  rewrite Hneg in HS.
  destruct (group b) as [g|]; simpl.
  - destruct (Selected g h) as [[sel|]|] eqn:Hsel; simpl; [| |done].
    + destruct st; simpl.
      * unfold Equals. case_bool_decide as Heq; simpl.
        -- subst sel. intros H. by eapply case_on_selected.
        -- destruct (setStateProp sel false h) as [h1|] eqn:H1; [|done]. simpl.
           destruct (setSelected g (Some c) h1) as [h2|] eqn:H2; [|done]. simpl.
           intros H3. by eapply case_switch.
      * destruct (setSelected g None h) as [h1|] eqn:H1; [|done]. simpl.
        intros H2. by eapply case_off.
    + destruct st; simpl.
      * destruct (setSelected g (Some c) h) as [h1|] eqn:H1; [|done]. simpl.
        intros H2. by eapply case_first.
      * intros H. by eapply case_off_unselected.
  - intros H. by apply case_ungrouped.
Qed.

Lemma SetState_heap_inv c st h h' :
  heap_inv h → SetState c st h = Some h' → heap_inv h'.
Proof.
  intros Hinv H. destruct (SetState_cases _ _ _ _ H)
    as [HS ->|HS HG H1|g h1 HS -> HG Hsel H1 H2|g HS -> HG Hsel H1
       |g sel h1 h2 HS -> HG Hsel Hne H1 H2 H3|g HS -> HG Hsel H1
       |g sel h1 HS -> HG Hsel H1 H2]; [done|..];
    destruct Hinv as [Hg Hon Hs Hid Hloc]; unfold member_on in *.
  - split; unfold member_on; intros *; before H1;
      split_decide; simplify_eq; naive_solver.
  - split; unfold member_on; intros *; before H2; before H1;
      split_decide; simplify_eq; naive_solver.
  - pose proof (Hon _ _ (conj HG HS)). congruence.
  - destruct (Hs _ _ Hsel) as [HGsel HSsel].
    split; unfold member_on; intros *; before H3; before H2; before H1;
      split_decide; simplify_eq; naive_solver.
  - destruct (Hs _ _ Hsel). congruence.
  - pose proof (Hon _ _ (conj HG HS)) as Hc. rewrite Hsel in Hc.
    injection Hc as ->.
    split; unfold member_on; intros *; before H2; before H1;
      split_decide; simplify_eq; naive_solver.
Qed.

Lemma SetState_is_Some c st h :
  heap_inv h → is_Some (State c h) → is_Some (SetState c st h).
Proof.
  intros [Hg Hon Hs Hid Hloc] HS. pose proof HS as [x Hx].
  unfold SetState. unfold State in Hx.
  destruct (buttons h !! c) as [b|] eqn:Hb; [|done]. simpl.
  case_bool_decide; [done|].
  assert (HG : Group c h = Some (group b)) by (unfold Group; by rewrite Hb).
  assert (Hstep : ∀ h1, State c h1 = State c h → is_Some (setStateProp c st h1)).
  { intros h1 E. apply setStateProp_is_Some. by rewrite E. }
  destruct (group b) as [g|]; simpl; [|by apply Hstep].
  destruct (Hg _ _ HG) as [sel Hsel]. rewrite Hsel. simpl.
  assert (Hset : ∀ s h1, Selected g h1 = Selected g h → State c h1 = State c h →
            is_Some (setSelected g s h1 ≫= setStateProp c st)).
  { intros s h1 E1 E2.
    destruct (setSelected_is_Some g s h1) as [h2 H2]; [by rewrite E1, Hsel|].
    rewrite H2. simpl. apply Hstep.
    by rewrite (setSelected_State _ _ _ _ _ H2). }
  destruct sel as [sel|], st; simpl; try (by apply Hset); try (by apply Hstep).
  unfold Equals. case_bool_decide as Hne; simpl; [by apply Hstep|].
  destruct (Hs _ _ Hsel) as [_ Hon_sel].
  destruct (setStateProp_is_Some sel false h) as [h1 H1]; [by rewrite Hon_sel|].
  rewrite H1. simpl. apply Hset.
  - by rewrite (setStateProp_Selected _ _ _ _ _ H1).
  - rewrite (setStateProp_State _ _ _ _ _ H1). by rewrite decide_False.
Qed.

Lemma heap_inv_empty : heap_inv empty_heap.
Proof.
  split; unfold member_on, Group, State, Selected; simpl; intros *;
    rewrite lookup_empty; simpl; first [done | by intros [? ?] | by intros [? ?]].
Qed.

Lemma heap_inv_NewRadioGroup name h :
  heap_inv h → heap_inv (NewRadioGroup name h).2.
Proof.
  intros [Hg Hon Hsel Hid Hloc].
  assert (Hfresh : Selected (nextLoc h) h = None).
  { destruct (Selected (nextLoc h) h) eqn:E; [|done].
    specialize (Hloc (nextLoc h) (mk_is_Some _ _ E)). lia. }
  assert (Hlk : ∀ g, Selected g (NewRadioGroup name h).2
                     = if decide (g = nextLoc h) then Some None else Selected g h).
  { intros g. unfold Selected, NewRadioGroup. simpl. case_decide.
    - subst. by rewrite lookup_insert_eq.
    - by rewrite lookup_insert_ne. }
  split; unfold member_on; intros *; rewrite ?Hlk;
    change (Group ?c (NewRadioGroup name h).2) with (Group c h);
    change (State ?c (NewRadioGroup name h).2) with (State c h).
  - case_decide; [done|apply Hg].
  - case_decide; [subst|apply Hon]. intros [HG _]. apply Hg in HG as [? ?]. congruence.
  - case_decide; [done|apply Hs || apply Hsel].
  - apply Hid.
  - simpl. case_decide; [subst; lia|]. intros H'. specialize (Hloc _ H'). lia.
Qed.
Lemma heap_inv_new_button text ty og f h :
  heap_inv h →
  (∀ g, og = Some g → is_Some (Selected g h)) →
  heap_inv (set_buttons (alter (set_classes f) (nextId h))
              (newStateButtonImpl text ty og h).2).
Proof.
  intros [Hg Hon Hs Hid Hloc] Hog.
  set (h' := set_buttons _ _).
  assert (Hfresh : State (nextId h) h = None).
  { destruct (State (nextId h) h) eqn:E; [|done].
    specialize (Hid (nextId h) (mk_is_Some _ _ E)). lia. }
  assert (HS : ∀ c, State c h'
                    = if decide (c = nextId h) then Some false else State c h).
  { intros c. unfold State, h', newStateButtonImpl, set_buttons. simpl.
    rewrite alter_insert_eq. case_decide.
    - subst. by rewrite lookup_insert_eq.
    - by rewrite lookup_insert_ne. }
  assert (HG : ∀ c, Group c h'
                    = if decide (c = nextId h) then Some og else Group c h).
  { intros c. unfold Group, h', newStateButtonImpl, set_buttons. simpl.
    rewrite alter_insert_eq. case_decide.
    - subst. by rewrite lookup_insert_eq.
    - by rewrite lookup_insert_ne. }
  assert (Hsel : ∀ g, Selected g h' = Selected g h) by done.
  assert (Hnot : ∀ g, Selected g h ≠ Some (Some (nextId h))).
  { intros g Hx. destruct (Hs _ _ Hx) as [_ ?]. congruence. }
  split; unfold member_on; intros *; rewrite ?HS, ?HG, ?Hsel.
  - case_decide; [|apply Hg]. intros [= ->]. by apply Hog.
  - case_decide; [by intros [_ ?]|apply Hon].
  - intros Hx. case_decide; [subst; by destruct (Hnot g)|by apply Hs].
  - simpl. case_decide; [subst; lia|]. intros Hx. specialize (Hid _ Hx). lia.
  - apply Hloc.
Qed.

Lemma do_call_heap_inv k h h' :
  heap_inv h → do_call k h = Some h' → heap_inv h'.
Proof.
  intros Hinv. destruct k as [name|text|text [g|]|c st]; simpl.
  - intros [= <-]. by apply heap_inv_NewRadioGroup.
  - intros [= <-]. by apply heap_inv_new_button.
  - destruct (groups h !! g) eqn:Hg; [|done]. simpl. intros [= <-].
    apply heap_inv_new_button; [done|]. intros ? [= <-].
    unfold Selected. by rewrite Hg.
  - intros [= <-]. by apply heap_inv_new_button.
  - by apply SetState_heap_inv.
Qed.

Lemma do_calls_heap_inv ks h h' :
  heap_inv h → do_calls ks h = Some h' → heap_inv h'.
Proof.
  revert h. induction ks as [|k ks IH]; intros h Hinv; simpl.
  - by intros [= <-].
  - destruct (do_call k h) as [h1|] eqn:Hk; [|done]. simpl.
    apply IH. by eapply do_call_heap_inv.
Qed.

Lemma SetState_State c st h h' :
  SetState c st h = Some h' → State c h' = Some st.
Proof.
  intros H. destruct (SetState_cases _ _ _ _ H)
    as [HS ->|HS HG H1|g h1 HS -> HG Hsel H1 H2|g HS -> HG Hsel H1
       |g sel h1 h2 HS -> HG Hsel Hne H1 H2 H3|g HS -> HG Hsel H1
       |g sel h1 HS -> HG Hsel H1 H2]; [done|..];
    match goal with
    | H : setStateProp c _ _ = Some h' |- _ =>
        rewrite (setStateProp_State _ _ _ _ _ H); by rewrite decide_True
    end.
Qed.

Lemma SetState_PrevSelected c st h h' g :
  SetState c st h = Some h' →
  (Selected g h' ≠ Selected g h → PrevSelected g h' = Selected g h) ∧
  (Selected g h' = Selected g h → PrevSelected g h' = PrevSelected g h).
Proof.
  intros H. destruct (SetState_cases _ _ _ _ H)
    as [HS ->|HS HG H1|g1 h1 HS -> HG Hsel H1 H2|g1 HS -> HG Hsel H1
       |g1 sel h1 h2 HS -> HG Hsel Hne H1 H2 H3|g1 HS -> HG Hsel H1
       |g1 sel h1 HS -> HG Hsel H1 H2]; [done|..].
  - rewrite (setStateProp_Selected _ _ _ _ _ H1),
      (setStateProp_PrevSelected _ _ _ _ _ H1). done.
  - rewrite (setStateProp_Selected _ _ _ _ _ H2),
      (setStateProp_PrevSelected _ _ _ _ _ H2),
      (setSelected_Selected _ _ _ _ _ H1), (setSelected_PrevSelected _ _ _ _ _ H1).
    case_decide; [subst; rewrite Hsel|]; done.
  - rewrite (setStateProp_Selected _ _ _ _ _ H1),
      (setStateProp_PrevSelected _ _ _ _ _ H1). done.
  - rewrite (setStateProp_Selected _ _ _ _ _ H3),
      (setStateProp_PrevSelected _ _ _ _ _ H3),
      (setSelected_Selected _ _ _ _ _ H2), (setSelected_PrevSelected _ _ _ _ _ H2),
      !(setStateProp_Selected _ _ _ _ _ H1),
      (setStateProp_PrevSelected _ _ _ _ _ H1).
    case_decide; [subst; rewrite Hsel|done]. split; [done|]. intros [= ?]. done.
  - rewrite (setStateProp_Selected _ _ _ _ _ H1),
      (setStateProp_PrevSelected _ _ _ _ _ H1). done.
  - rewrite (setStateProp_Selected _ _ _ _ _ H2),
      (setStateProp_PrevSelected _ _ _ _ _ H2),
      (setSelected_Selected _ _ _ _ _ H1), (setSelected_PrevSelected _ _ _ _ _ H1).
    case_decide; [subst; rewrite Hsel|]; done.
Qed.

(** C1.  Whatever the client has called so far, in every radio group at most
    one member is on, the member that is on is the button [Selected]
    returns, and a further [SetState] on any button returns. *)
Theorem radio_group_at_most_one_on (ks : list call) (h : heap) :
  do_calls ks empty_heap = Some h →
  (∀ g c1 c2, member_on g c1 h → member_on g c2 h → c1 = c2) ∧
  (∀ g c, member_on g c h → Selected g h = Some (Some c)) ∧
  (∀ c st, is_Some (State c h) → is_Some (SetState c st h)).
Proof.
  intros Hrun.
  assert (Hinv : heap_inv h) by (eapply do_calls_heap_inv; [apply heap_inv_empty|done]).
  split; [|split].
  - intros g c1 c2 H1 H2.
    apply (inv_on _ Hinv) in H1. apply (inv_on _ Hinv) in H2. congruence.
  - intros g c. apply (inv_on _ Hinv).
  - intros c st. by apply SetState_is_Some.
Qed.

(** The scenario of the spec: A is switched on, then B; B is the member
    that is on. *)
Lemma radio_group_at_most_one_on_witness :
  do_calls example_calls empty_heap = Some example_heap ∧
  State 0 example_heap = Some false ∧
  Selected 1%positive example_heap = Some (Some 2) ∧
  ∀ c, member_on 1%positive c example_heap → c = 2.
Proof.
  repeat split; try reflexivity.
  intros c Hc.
  destruct (radio_group_at_most_one_on example_calls example_heap eq_refl)
    as (Hone & _ & _).
  apply (Hone 1%positive c 2 Hc). split; reflexivity.
Defined.

(** C6.  After any calls of the client, a [SetState] on a button returns,
    and for every group: if the call changed what [Selected] returns, then
    [PrevSelected] returns what [Selected] returned before the call; if it
    did not, the single slot [PrevSelected] is as before. *)
Theorem prev_selected_is_selected_before (ks : list call) (h : heap)
    (c : ID) (st : bool) :
  do_calls ks empty_heap = Some h →
  is_Some (State c h) →
  ∃ h', SetState c st h = Some h' ∧
    ∀ g, (Selected g h' ≠ Selected g h → PrevSelected g h' = Selected g h) ∧
         (Selected g h' = Selected g h → PrevSelected g h' = PrevSelected g h).
Proof.
  intros Hrun Hc.
  assert (Hinv : heap_inv h) by (eapply do_calls_heap_inv; [apply heap_inv_empty|done]).
  destruct (SetState_is_Some c st h Hinv Hc) as [h' H'].
  exists h'. split; [done|]. intros g. by eapply SetState_PrevSelected.
Qed.

(** In the scenario (B selected after A), switching A on again makes B the
    previous selection. *)
Lemma prev_selected_is_selected_before_witness :
  ∃ h', SetState 0 true example_heap = Some h' ∧
        Selected 1%positive h' = Some (Some 0) ∧
        PrevSelected 1%positive h' = Some (Some 2).
Proof.
  destruct (prev_selected_is_selected_before example_calls example_heap 0 true
              eq_refl (mk_is_Some _ _ eq_refl)) as (h' & H' & Hprev).
  exists h'. split; [done|].
  assert (Hsel : Selected 1%positive h' = Some (Some 0)).
  { revert H'. vm_compute. by intros [= <-]. }
  split; [done|].
  destruct (Hprev 1%positive) as [Hchanged _].
  rewrite Hchanged; [reflexivity|]. rewrite Hsel. by vm_compute.
Defined.

End StateButtonFacts.

(** * Facts about switch buttons *)
Section SwitchButtonFacts.
Import SwitchButton Style.

Lemma switch_SetState_state st c : state (SetState st c) = st.
Proof.
  unfold SetState. case_bool_decide as H; [done|]. simpl. by destruct st.
Qed.

Lemma switch_SetState_same st c : state c = st → SetState st c = c.
Proof. intros H. unfold SetState. by rewrite bool_decide_eq_true_2. Qed.

Lemma switch_SetState_twice st c : SetState st (SetState st c) = SetState st c.
Proof. apply switch_SetState_same, switch_SetState_state. Qed.

Lemma styled_SetState st c :
  styled c → styled (SetState st c).
Proof.
  intros Hc. unfold SetState. case_bool_decide as H; [done|].
  unfold styled. simpl. by destruct st.
Qed.

Lemma styled_do_calls ks c : styled c → styled (do_calls ks c).
Proof.
  revert c. induction ks as [|k ks IH]; intros c Hc; [done|].
  unfold do_calls. simpl. apply IH.
  destruct k as [st|on off]; simpl; [by apply styled_SetState|done].
Qed.

(** C5.  After [NewSwitchButton] and any calls of the client, the classes
    of the two sub-buttons are those the table gives for the state of the
    switch: on/active and off/inactive when it is [true], on/inactive and
    off/active when it is [false]; [SetState] sets the state, and the second
    of two equal [SetState] calls changes nothing. *)
Theorem switch_classes_follow_state (ks : list call) (st : bool) :
  let c := do_calls ks NewSwitchButton in
  classes (onButton c) = on_classes (state c) ∧
  classes (offButton c) = off_classes (state c) ∧
  (HasClass "gwu-SwitchButton-On-Active" (classes (onButton c)) = state c) ∧
  (HasClass "gwu-SwitchButton-Off-Inactive" (classes (offButton c)) = state c) ∧
  (HasClass "gwu-SwitchButton-On-Inactive" (classes (onButton c)) = negb (state c)) ∧
  (HasClass "gwu-SwitchButton-Off-Active" (classes (offButton c)) = negb (state c)) ∧
  state (SetState st c) = st ∧
  SetState st (SetState st c) = SetState st c.
Proof.
  intros c.
  assert (Hc : styled c) by (apply styled_do_calls; by vm_compute).
  destruct Hc as [Hon Hoff].
  rewrite Hon, Hoff.
  repeat split; try (by destruct (state c)).
  - apply switch_SetState_state.
  - apply switch_SetState_twice.
Qed.

End SwitchButtonFacts.

(** * Facts about text boxes *)
Section TextBoxFacts.
Import TextBox Http.

Lemma FormValue_first (r : gmap string (list string)) key v vs :
  r !! key = Some (v :: vs) → FormValue r key = v.
Proof. intros H. unfold FormValue. by rewrite H. Qed.

Lemma FormValue_absent (r : gmap string (list string)) key :
  r !! key = None → FormValue r key = "".
Proof. intros H. unfold FormValue. by rewrite H. Qed.

(** C8.  [preprocessEvent] of a text box or password box: when the value
    parameter is present in the form, the text becomes its first value, also
    when that value is the empty string; when the parameter is absent, the
    component is as before. *)
Theorem textbox_preprocessEvent_present_or_absent
    (PARAM_COMP_VALUE : string) (r : gmap string (list string)) (c : textBoxImpl) :
  (∀ v vs, r !! PARAM_COMP_VALUE = Some (v :: vs) →
     preprocessEvent PARAM_COMP_VALUE r c = set_text v c ∧
     text (preprocessEvent PARAM_COMP_VALUE r c) = v) ∧
  (∀ vs, r !! PARAM_COMP_VALUE = Some ("" :: vs) →
     text (preprocessEvent PARAM_COMP_VALUE r c) = "") ∧
  (r !! PARAM_COMP_VALUE = None →
     preprocessEvent PARAM_COMP_VALUE r c = c).
Proof.
  assert (Hpresent : ∀ v vs, r !! PARAM_COMP_VALUE = Some (v :: vs) →
            preprocessEvent PARAM_COMP_VALUE r c = set_text v c).
  { intros v vs H. unfold preprocessEvent.
    rewrite (FormValue_first _ _ _ _ H), H. by case_bool_decide. }
  split; [|split].
  - intros v vs H. by rewrite (Hpresent _ _ H).
  - intros vs H. by rewrite (Hpresent _ _ H).
  - intros H. unfold preprocessEvent.
    by rewrite (FormValue_absent _ _ H), H.
Qed.

(** A password box that holds "secret": an empty value empties it, a form
    without the parameter leaves it. *)
Lemma textbox_preprocessEvent_present_or_absent_witness :
  text (preprocessEvent "cv" {["cv" := [""]]} (NewPasswBox "secret")) = "" ∧
  preprocessEvent "cv" {["other" := ["x"]]} (NewPasswBox "secret")
  = NewPasswBox "secret".
Proof.
  split.
  - apply (proj1 (proj2 (textbox_preprocessEvent_present_or_absent
                           "cv" {["cv" := [""]]} (NewPasswBox "secret"))) []).
    reflexivity.
  - apply (proj2 (proj2 (textbox_preprocessEvent_present_or_absent
                           "cv" {["other" := ["x"]]} (NewPasswBox "secret")))).
    reflexivity.
Defined.

End TextBoxFacts.

(** * Facts shared by check boxes, radio buttons and switch buttons *)
Section StateFacts.
Import Http.

(** C9.  [SetState] with the state the button already has changes nothing:
    the store of buttons and groups (states, style classes, [Selected] and
    [PrevSelected] of every group) is the same store, and a switch button
    (its state, its classes and those of its two sub-buttons) is the same
    switch button.  Hence a second equal call changes nothing. *)
Theorem SetState_current_state_is_noop :
  (∀ c st h, StateButton.State c h = Some st →
     StateButton.SetState c st h = Some h) ∧
  (∀ c st h h', StateButton.SetState c st h = Some h' →
     StateButton.SetState c st h' = Some h') ∧
  (∀ st c, SwitchButton.State c = st → SwitchButton.SetState st c = c) ∧
  (∀ st c, SwitchButton.SetState st (SwitchButton.SetState st c)
           = SwitchButton.SetState st c).
Proof.
  assert (Hnoop : ∀ c st h, StateButton.State c h = Some st →
            StateButton.SetState c st h = Some h).
  { intros c st h. unfold StateButton.State.
    destruct (StateButton.buttons h !! c) as [b|] eqn:Hb; [|done].
    intros [= Hst]. by eapply SetState_same. }
  repeat split.
  - exact Hnoop.
  - intros c st h h' H. by apply Hnoop, (SetState_State _ _ h).
  - intros st c. apply switch_SetState_same.
  - intros st c. apply switch_SetState_twice.
Qed.

(** In the scenario B is on and the new switch button is off. *)
Lemma SetState_current_state_is_noop_witness :
  StateButton.SetState 2 true StateButton.example_heap
  = Some StateButton.example_heap ∧
  SwitchButton.SetState false SwitchButton.NewSwitchButton
  = SwitchButton.NewSwitchButton.
Proof.
  destruct SetState_current_state_is_noop as (Hbutton & _ & Hswitch & _).
  split.
  - apply Hbutton. reflexivity.
  - apply Hswitch. reflexivity.
Defined.

Lemma ParseBool_empty : ParseBool "" = None.
Proof. reflexivity. Qed.

(** C7.  [preprocessEvent] of a check box, a radio button and a switch
    button: it returns; when the value parameter is absent, is empty or is
    not a boolean for [strconv.ParseBool], the store (and the switch button)
    is as before; when the value is the boolean [v], the result is that of
    [SetState v].  The method has no result through which a failure could be
    reported. *)
Theorem preprocessEvent_bool_lenient
    (PARAM_COMP_VALUE : string) (r : gmap string (list string)) :
  let value := FormValue r PARAM_COMP_VALUE in
  (∀ ks h c, StateButton.do_calls ks StateButton.empty_heap = Some h →
     is_Some (StateButton.State c h) →
     is_Some (StateButton.preprocessEvent PARAM_COMP_VALUE c r h)) ∧
  (r !! PARAM_COMP_VALUE = None ∨ value = "" ∨ ParseBool value = None →
     (∀ c h, StateButton.preprocessEvent PARAM_COMP_VALUE c r h = Some h) ∧
     (∀ c, SwitchButton.preprocessEvent PARAM_COMP_VALUE r c = c)) ∧
  (∀ v, ParseBool value = Some v →
     (∀ c h, StateButton.preprocessEvent PARAM_COMP_VALUE c r h
             = StateButton.SetState c v h) ∧
     (∀ c, SwitchButton.preprocessEvent PARAM_COMP_VALUE r c
           = SwitchButton.SetState v c)).
Proof.
  intros value.
  assert (Hnone : r !! PARAM_COMP_VALUE = None ∨ value = "" ∨ ParseBool value = None →
            ParseBool value = None).
  { intros [H|[H|H]]; [|by rewrite H|done].
    unfold value. by rewrite (FormValue_absent _ _ H). }
  split; [|split].
  - intros ks h c Hrun Hc.
    unfold StateButton.preprocessEvent. fold value.
    case_bool_decide; [done|].
    destruct (ParseBool value); [|done].
    apply SetState_is_Some; [|done].
    eapply do_calls_heap_inv; [apply heap_inv_empty|done].
  - intros H. apply Hnone in H.
    unfold StateButton.preprocessEvent, SwitchButton.preprocessEvent.
    fold value. rewrite H. split; intros; by case_bool_decide.
  - intros v Hv.
    assert (String.length value ≠ 0%nat).
    { destruct value; [by rewrite ParseBool_empty in Hv|done]. }
    unfold StateButton.preprocessEvent, SwitchButton.preprocessEvent.
    fold value. rewrite Hv.
    split; intros; by rewrite bool_decide_eq_false_2.
Qed.

(** In the scenario, with B on: the value "maybe" leaves the store, the
    value "0" switches B off. *)
Lemma preprocessEvent_bool_lenient_witness :
  StateButton.preprocessEvent "cv" 2 {["cv" := ["maybe"]]} StateButton.example_heap
  = Some StateButton.example_heap ∧
  StateButton.preprocessEvent "cv" 2 {["cv" := ["0"]]} StateButton.example_heap
  = StateButton.SetState 2 false StateButton.example_heap ∧
  is_Some (StateButton.preprocessEvent "cv" 2 {["cv" := ["0"]]}
             StateButton.example_heap).
Proof.
  split; [|split].
  - apply (proj1 (proj2 (preprocessEvent_bool_lenient "cv" {["cv" := ["maybe"]]}))).
    right. right. reflexivity.
  - apply (proj2 (proj2 (preprocessEvent_bool_lenient "cv" {["cv" := ["0"]]})) false).
    reflexivity.
  - apply (proj1 (preprocessEvent_bool_lenient "cv" {["cv" := ["0"]]})
             StateButton.example_calls).
    + reflexivity.
    + by eexists.
Defined.

End StateFacts.

(** * Facts about tab panels *)
Section TabPanelFacts.
Import TabPanel Style.
#[local] Open Scope Z_scope.

(** *** The panel as a list *)

Lemma CompAt_nat c (i : nat) : CompAt c (Z.of_nat i) = comps c !! i.
Proof.
  unfold CompAt. rewrite bool_decide_eq_false_2; [|lia]. by rewrite Nat2Z.id.
Qed.

Lemma CompAt_Some c idx x :
  CompAt c idx = Some x → ∃ i : nat, idx = Z.of_nat i ∧ comps c !! i = Some x.
Proof.
  unfold CompAt. case_bool_decide as Hneg; [done|]. intros Hx.
  exists (Z.to_nat idx). split; [lia|done].
Qed.

Lemma CompAt_outside c idx : (CompsCount c ≤ idx)%Z → CompAt c idx = None.
Proof.
  unfold CompAt, CompsCount. intros Hge. case_bool_decide as Hneg; [done|].
  apply lookup_ge_None. lia.
Qed.

Lemma CompIdx_notin c c2 : c2 ∉ comps c → CompIdx c c2 = -1.
Proof.
  intros H. unfold CompIdx.
  destruct (list_find _ _) as [[i x]|] eqn:E; [|done].
  apply list_find_Some in E as (Hi & -> & _).
  destruct H. by eapply list_elem_of_lookup_2.
Qed.

Lemma CompIdx_found c c2 :
  c2 ∈ comps c → ∃ i : nat, CompIdx c c2 = Z.of_nat i ∧ comps c !! i = Some c2.
Proof.
  intros H. unfold CompIdx.
  destruct (list_find _ _) as [[i x]|] eqn:E.
  - apply list_find_Some in E as (Hi & -> & _). by exists i.
  - apply list_find_None in E. rewrite Forall_forall in E. by destruct (E c2).
Qed.

Lemma CompIdx_NoDup c c2 (i : nat) :
  NoDup (comps c) → comps c !! i = Some c2 → CompIdx c c2 = Z.of_nat i.
Proof.
  intros Hnd Hi.
  destruct (CompIdx_found c c2) as (j & -> & Hj); [by eapply list_elem_of_lookup_2|].
  f_equal. by eapply NoDup_lookup.
Qed.

Lemma CompIdx_range c c2 : (-1 ≤ CompIdx c c2 < CompsCount c)%Z.
Proof.
  destruct (decide (c2 ∈ comps c)) as [H|H].
  - destruct (CompIdx_found _ _ H) as (i & -> & Hi).
    apply lookup_lt_Some in Hi. unfold CompsCount. lia.
  - rewrite (CompIdx_notin _ _ H). unfold CompsCount. lia.
Qed.

(** *** Parents *)

Lemma parent_setParent c p s x :
  parent (setParent c p s) !! x = if decide (x = c) then p else parent s !! x.
Proof.
  destruct p; simpl; case_decide; subst;
    by rewrite ?lookup_insert_eq, ?lookup_insert_ne, ?lookup_delete_eq,
         ?lookup_delete_ne.
Qed.

Lemma parent_Clear l s x :
  parent (foldr (λ c2 s, setParent c2 None s) s l) !! x
  = if decide (x ∈ l) then None else parent s !! x.
Proof.
  induction l as [|y l IH].
  - destruct (decide (x ∈ [])) as [Hin|_]; [|done]. by apply elem_of_nil in Hin.
  - change (foldr _ s (y :: l)) with
      (setParent y None (foldr (λ c2 s, setParent c2 None s) s l)).
    rewrite parent_setParent, IH.
    destruct (decide (x ∈ l)) as [Hl|Hl], (decide (x ∈ y :: l)) as [Hc|Hc],
      (decide (x = y)) as [Heq|Hne]; try done; set_solver.
Qed.


(** *** [SetSelected] *)

Lemma SetSelected_noop idx c s :
  (CompsCount (panel c) ≤ idx)%Z → SetSelected idx c s = Some (c, s).
Proof.
  intros H. unfold SetSelected. rewrite bool_decide_eq_true_2; [done|lia].
Qed.

Lemma SetSelected_frame idx c s c' s' :
  SetSelected idx c s = Some (c', s') →
  panel c' = panel c ∧ tabBarImpl c' = tabBarImpl c ∧
  tabBarPlacement c' = tabBarPlacement c ∧
  parent s' = parent s ∧ nextId s' = nextId s ∧
  selected c' = (if bool_decide (idx >= CompsCount (panel c))
                 then selected c else idx).
Proof.
  unfold SetSelected. case_bool_decide as Hidx; [by intros [= <- <-]|].
  destruct (if bool_decide (selected c >= 0) then _ else _) as [s1|] eqn:E1;
    [|done].
  assert (parent s1 = parent s ∧ nextId s1 = nextId s) as [Hp1 Hn1].
  { case_bool_decide; [|by injection E1 as <-].
    destruct (CompAt (tabBarImpl c) (selected c)); [|done].
    by injection E1 as <-. }
  simpl.
  destruct (bool_decide (idx >= 0));
    [destruct (CompAt (tabBarImpl c) idx); simpl; [|done]|];
    intros [= <- <-]; simpl; repeat split; done.
Qed.

Lemma SetSelected_is_Some idx c s :
  (selected c < 0 ∨ is_Some (CompAt (tabBarImpl c) (selected c))) →
  (idx < 0 ∨ CompsCount (panel c) ≤ idx ∨ is_Some (CompAt (tabBarImpl c) idx))%Z →
  is_Some (SetSelected idx c s).
Proof.
  intros Hsel Hidx. unfold SetSelected. case_bool_decide as Hge; [done|].
  assert (Hnew : ∀ s1, is_Some
            (if bool_decide (selected (set_selected idx c) >= 0)
             then t ← CompAt (tabBarImpl (set_selected idx c)) idx;
                  let s0 := Style_update t (RemoveClass "gwu-TabBar-NotSelected") s1 in
                  Some (set_selected idx c,
                        Style_update t (AddClass "gwu-TabBar-Selected") s0)
             else Some (set_selected idx c, s1))).
  { intros s1. simpl. destruct (bool_decide (idx >= 0)) eqn:Hneg; [|done].
    apply bool_decide_eq_true in Hneg.
    destruct Hidx as [?|[?|[t ->]]]; [lia|lia|done]. }
  destruct (bool_decide (selected c >= 0)) eqn:Hs; [|apply Hnew].
  apply bool_decide_eq_true in Hs.
  destruct Hsel as [?|[t ->]]; [lia|]. apply Hnew.
Qed.

Lemma SetSelected_panics idx c s :
  idx < CompsCount (panel c) → 0 ≤ selected c →
  CompAt (tabBarImpl c) (selected c) = None →
  SetSelected idx c s = None.
Proof.
  intros Hidx Hsel Hnone. unfold SetSelected.
  rewrite (bool_decide_eq_false_2 (idx >= _)) by lia.
  rewrite (bool_decide_eq_true_2 (selected c >= _)) by lia.
  by rewrite Hnone.
Qed.

Lemma wf_change c s c' s' :
  wf c s →
  panel c' = panel c → tabBarImpl c' = tabBarImpl c → parent s' = parent s →
  selected c' < CompsCount (panel c') →
  wf c' s'.
Proof.
  intros [] Hp Ht Hs Hsel. split; rewrite ?Hp, ?Ht, ?Hs; try done.
  by rewrite <- Hp.
Qed.

Lemma wf_CompAt_tab c s idx :
  wf c s → (0 ≤ idx < CompsCount (panel c))%Z →
  is_Some (CompAt (tabBarImpl c) idx).
Proof.
  intros Hwf Hidx. unfold CompAt, CompsCount in *.
  rewrite bool_decide_eq_false_2 by lia.
  apply lookup_lt_is_Some. rewrite (wf_length _ _ Hwf). lia.
Qed.

Lemma SetSelected_wf idx c s :
  wf c s →
  ∃ c' s', SetSelected idx c s = Some (c', s') ∧ wf c' s'.
Proof.
  intros Hwf.
  destruct (SetSelected_is_Some idx c s) as [[c' s'] H].
  { destruct (decide (selected c < 0)); [by left|right].
    apply (wf_CompAt_tab _ s); [done|]. pose proof (wf_selected _ _ Hwf). lia. }
  { destruct (decide (idx < 0)); [by left|right].
    destruct (decide (CompsCount (panel c) ≤ idx)%Z); [by left|right].
    apply (wf_CompAt_tab _ s); [done|lia]. }
  exists c', s'. split; [done|].
  destruct (SetSelected_frame _ _ _ _ _ H) as (Hp & Ht & _ & Hs & _ & Hsel).
  apply (wf_change c s); try done.
  rewrite Hsel, Hp. case_bool_decide; [apply (wf_selected _ _ Hwf)|lia].
Qed.


(** *** [Remove] *)

Lemma panelImpl_Remove_at c s c2 (i : nat) :
  NoDup (comps c) → comps c !! i = Some c2 →
  panelImpl_Remove c2 c s
  = (true, (mkPanel (id c) (delete i (comps c)), setParent c2 None s)).
Proof.
  intros Hnd Hi. unfold panelImpl_Remove.
  rewrite (CompIdx_NoDup _ _ _ Hnd Hi).
  rewrite bool_decide_eq_false_2 by lia. by rewrite Nat2Z.id.
Qed.

Lemma Remove_fuel_content n c s c2 (i : nat) t :
  NoDup (comps (panel c)) → NoDup (comps (tabBarImpl c)) →
  comps (panel c) !! i = Some c2 → comps (tabBarImpl c) !! i = Some t →
  let c1 := mkTabPanel (mkPanel (id (panel c)) (delete i (comps (panel c))))
              (mkPanel (id (tabBarImpl c)) (delete i (comps (tabBarImpl c))))
              (tabBarPlacement c) (selected c) in
  let s1 := setParent c2 None (setParent t None s) in
  Remove_fuel (S n) c2 c s
  = '(c, s) ←
      (if bool_decide (Z.of_nat i < selected c) then
         Some (set_selected (selected c - 1) c1, s1)
       else if bool_decide (Z.of_nat i = selected c) then
         if bool_decide (Z.of_nat i < CompsCount (panel c1)) then
           SetSelected (Z.of_nat i) c1 s1
         else if bool_decide (Z.of_nat i > 0) then
           SetSelected (Z.of_nat i - 1) c1 s1
         else SetSelected (-1) c1 s1
       else Some (c1, s1));
    Some (true, (c, s)).
Proof.
  intros Hnd Hndt Hi Ht c1 s1. cbn [Remove_fuel].
  rewrite (CompIdx_NoDup _ _ _ Hnd Hi).
  rewrite bool_decide_eq_false_2 by lia.
  rewrite CompAt_nat, Ht. cbn [mbind option_bind].
  rewrite (panelImpl_Remove_at _ _ _ _ Hndt Ht).
  rewrite (panelImpl_Remove_at _ _ _ _ Hnd Hi).
  reflexivity.
Qed.

Lemma Remove_fuel_absent n c s c2 :
  c2 ∉ comps (panel c) → c2 ∉ comps (tabBarImpl c) →
  Remove_fuel (S n) c2 c s = Some (false, (c, s)).
Proof.
  intros Hc Ht. cbn [Remove_fuel].
  rewrite (CompIdx_notin _ _ Hc), (CompIdx_notin _ _ Ht).
  by rewrite !bool_decide_eq_true_2 by lia.
Qed.

Lemma Remove_fuel_tab n c s c2 (i : nat) :
  c2 ∉ comps (panel c) → NoDup (comps (tabBarImpl c)) →
  comps (tabBarImpl c) !! i = Some c2 →
  Remove_fuel (S n) c2 c s
  = c3 ← comps (panel c) !! i; Remove_fuel n c3 c s.
Proof.
  intros Hc Hnd Hi. cbn [Remove_fuel].
  rewrite (CompIdx_notin _ _ Hc), (CompIdx_NoDup _ _ _ Hnd Hi).
  rewrite bool_decide_eq_true_2 by lia.
  rewrite bool_decide_eq_false_2 by lia.
  by rewrite CompAt_nat.
Qed.

(** One nested call is all [Remove] makes: more fuel changes nothing. *)
Lemma Remove_fuel_member n c s c2 :
  c2 ∈ comps (panel c) → Remove_fuel (S n) c2 c s = Remove_fuel 1 c2 c s.
Proof.
  intros Hin. destruct (CompIdx_found _ _ Hin) as (i & Hi & _).
  cbn [Remove_fuel]. rewrite Hi.
  by rewrite bool_decide_eq_false_2 by lia.
Qed.

Lemma Remove_fuel_not_member n c s c2 :
  c2 ∉ comps (panel c) →
  Remove_fuel (S n) c2 c s
  = let i := CompIdx (tabBarImpl c) c2 in
    if bool_decide (i < 0) then Some (false, (c, s))
    else c3 ← CompAt (panel c) i; Remove_fuel n c3 c s.
Proof.
  intros Hnin. cbn [Remove_fuel]. rewrite (CompIdx_notin _ _ Hnin).
  by rewrite bool_decide_eq_true_2 by lia.
Qed.

Lemma Remove_fuel_enough n c2 c s :
  Remove_fuel (S (S n)) c2 c s = Remove c2 c s.
Proof.
  unfold Remove.
  destruct (decide (c2 ∈ comps (panel c))) as [Hin|Hnin].
  { by rewrite (Remove_fuel_member (S n) _ _ _ Hin),
       (Remove_fuel_member 1 _ _ _ Hin). }
  rewrite (Remove_fuel_not_member (S n) _ _ _ Hnin),
    (Remove_fuel_not_member 1 _ _ _ Hnin).
  cbn zeta. case_bool_decide; [done|].
  destruct (CompAt (panel c) _) as [c3|] eqn:E; [|done].
  apply CompAt_Some in E as (j & _ & Hj). cbn [mbind option_bind].
  apply Remove_fuel_member. by eapply list_elem_of_lookup_2.
Qed.


(** *** The invariant is kept *)

Lemma NoDup_delete_notin (l : list Z) (i : nat) x :
  NoDup l → l !! i = Some x → x ∉ delete i l.
Proof.
  intros Hnd Hi Hin. apply list_elem_of_lookup in Hin as [j Hj].
  rewrite list_lookup_delete in Hj. case_decide as Hlt.
  - pose proof (NoDup_lookup _ _ _ _ Hnd Hi Hj). lia.
  - pose proof (NoDup_lookup _ _ _ _ Hnd Hi Hj). lia.
Qed.

Lemma wf_disjoint c s x :
  wf c s → x ∈ comps (tabBarImpl c) → x ∈ comps (panel c) → False.
Proof.
  intros Hwf Ht Hc.
  pose proof (wf_tabs_parent _ _ Hwf _ Ht) as H1.
  pose proof (wf_comps_parent _ _ Hwf _ Hc) as H2.
  pose proof (wf_ids _ _ Hwf). congruence.
Qed.

Lemma wf_tabBar_not_tab c s :
  wf c s → id (tabBarImpl c) ∉ comps (tabBarImpl c).
Proof.
  intros Hwf Ht.
  pose proof (wf_tabs_parent _ _ Hwf _ Ht) as H1.
  pose proof (wf_tabBar_parent _ _ Hwf) as H2.
  pose proof (wf_ids _ _ Hwf). congruence.
Qed.

Lemma wf_removed c s c2 t (i : nat) k :
  wf c s →
  comps (panel c) !! i = Some c2 → comps (tabBarImpl c) !! i = Some t →
  k < CompsCount (panel c) - 1 →
  wf (mkTabPanel (mkPanel (id (panel c)) (delete i (comps (panel c))))
        (mkPanel (id (tabBarImpl c)) (delete i (comps (tabBarImpl c))))
        (tabBarPlacement c) k)
     (setParent c2 None (setParent t None s)).
Proof.
  intros Hwf Hi Ht Hk.
  assert (Hc2 : c2 ∈ comps (panel c)) by by eapply list_elem_of_lookup_2.
  assert (Htin : t ∈ comps (tabBarImpl c)) by by eapply list_elem_of_lookup_2.
  split; cbn [panel tabBarImpl comps id selected].
  - rewrite !length_delete by by eexists. by rewrite (wf_length _ _ Hwf).
  - eapply sublist_NoDup; [apply (wf_tabs_nodup _ _ Hwf)|apply sublist_delete].
  - eapply sublist_NoDup; [apply (wf_comps_nodup _ _ Hwf)|apply sublist_delete].
  - intros x Hx. rewrite !parent_setParent.
    pose proof (list_elem_of_delete_inv _ _ _ Hx) as Hx'.
    rewrite decide_False; [rewrite decide_False|].
    + by apply (wf_tabs_parent _ _ Hwf).
    + intros ->. by eapply NoDup_delete_notin; [apply (wf_tabs_nodup _ _ Hwf)|..].
    + intros ->. by eapply wf_disjoint.
  - intros x Hx. rewrite !parent_setParent.
    pose proof (list_elem_of_delete_inv _ _ _ Hx) as Hx'.
    rewrite decide_False; [rewrite decide_False|].
    + by apply (wf_comps_parent _ _ Hwf).
    + intros ->. by eapply wf_disjoint.
    + intros ->. by eapply NoDup_delete_notin; [apply (wf_comps_nodup _ _ Hwf)|..].
  - apply (wf_ids _ _ Hwf).
  - rewrite !parent_setParent.
    rewrite decide_False; [rewrite decide_False|].
    + apply (wf_tabBar_parent _ _ Hwf).
    + intros Heq. rewrite <- Heq in Htin. by eapply wf_tabBar_not_tab.
    + intros Heq. rewrite <- Heq in Hc2. by eapply (wf_tabBar_notin _ _ Hwf).
  - intros Hx. apply list_elem_of_delete_inv in Hx.
    by apply (wf_tabBar_notin _ _ Hwf).
  - unfold CompsCount in *. cbn [comps]. rewrite length_delete by by eexists.
    apply lookup_lt_Some in Hi. lia.
Qed.


Lemma wf_tab_at c s (i : nat) c2 :
  wf c s → comps (panel c) !! i = Some c2 →
  ∃ t, comps (tabBarImpl c) !! i = Some t.
Proof.
  intros Hwf Hi. apply lookup_lt_is_Some.
  rewrite (wf_length _ _ Hwf). by apply lookup_lt_Some in Hi.
Qed.

Lemma Remove_content_wf n c s c2 (i : nat) b c' s' :
  wf c s → comps (panel c) !! i = Some c2 →
  Remove_fuel (S n) c2 c s = Some (b, (c', s')) →
  b = true ∧ wf c' s' ∧
  comps (panel c') = delete i (comps (panel c)) ∧
  comps (tabBarImpl c') = delete i (comps (tabBarImpl c)) ∧
  selected c' = (if decide (Z.of_nat i < selected c) then selected c - 1
                 else selected c).
Proof.
  intros Hwf Hi. destruct (wf_tab_at _ _ _ _ Hwf Hi) as [t Ht].
  rewrite (Remove_fuel_content n c s c2 i t
             (wf_comps_nodup _ _ Hwf) (wf_tabs_nodup _ _ Hwf) Hi Ht).
  pose proof (wf_removed c s c2 t i) as Hrem.
  pose proof (wf_selected _ _ Hwf) as Hsel.
  assert (Hlt : Z.of_nat i < CompsCount (panel c)).
  { unfold CompsCount. apply lookup_lt_Some in Hi. lia. }
  set (c1 := mkTabPanel _ _ _ _) in *. set (s1 := setParent c2 None _) in *.
  assert (Hcount : CompsCount (panel c1) = CompsCount (panel c) - 1).
  { unfold CompsCount, c1 in *. cbn [panel comps].
    rewrite length_delete by by eexists. lia. }
  assert (Hlen1 : CompsCount (tabBarImpl c1) = CompsCount (panel c1)).
  { unfold CompsCount, c1. cbn [panel tabBarImpl comps].
    rewrite !length_delete by by eexists. by rewrite (wf_length _ _ Hwf). }
  case_bool_decide as H1.
  - cbn [mbind option_bind]. intros [= <- <- <-].
    rewrite decide_True by done.
    split; [done|]. split; [|done].
    apply (Hrem (selected c - 1) Hwf Hi Ht). lia.
  - rewrite decide_False by done. case_bool_decide as H2.
    + case_bool_decide as H3.
      * destruct (SetSelected (Z.of_nat i) c1 s1) as [[c3 s3]|] eqn:E; [|done].
        cbn [mbind option_bind]. intros [= <- <- <-].
        destruct (SetSelected_frame _ _ _ _ _ E) as (Hp & Hb & _ & Hs & _ & Hsl).
        assert (Hnge : ¬ Z.of_nat i >= CompsCount (panel c1)) by (clear -H3; lia).
        rewrite (bool_decide_eq_false_2 _ Hnge) in Hsl.
        split; [done|]. rewrite Hp, Hb, Hsl. split; [|done].
        apply (wf_change (set_selected (Z.of_nat i) c1) s1); try done.
        -- apply (Hrem _ Hwf Hi Ht). lia.
        -- rewrite Hsl, Hp. done.
      * assert (Hpanic : ∀ idx, idx < CompsCount (panel c1) →
                  SetSelected idx c1 s1 = None).
        { intros idx Hidx. apply SetSelected_panics; [done|cbn; lia|].
          apply CompAt_outside. cbn [selected c1]. lia. }
        rewrite !Hpanic by lia. by destruct (bool_decide _).
    + cbn [mbind option_bind]. intros [= <- <- <-].
      split; [done|]. split; [|done].
      apply (Hrem (selected c) Hwf Hi Ht). lia.
Qed.

(** The defect: removing the selected pair when it is the last one. *)
Lemma Remove_selected_last_panics n c s c2 (i : nat) :
  wf c s → comps (panel c) !! i = Some c2 →
  selected c = Z.of_nat i → Z.of_nat i + 1 = CompsCount (panel c) →
  Remove_fuel (S n) c2 c s = None.
Proof.
  intros Hwf Hi Hsel Hlast.
  destruct (Remove_fuel (S n) c2 c s) as [[b [c' s']]|] eqn:E; [|done].
  exfalso. revert E.
  destruct (wf_tab_at _ _ _ _ Hwf Hi) as [t Ht].
  rewrite (Remove_fuel_content n c s c2 i t
             (wf_comps_nodup _ _ Hwf) (wf_tabs_nodup _ _ Hwf) Hi Ht).
  set (c1 := mkTabPanel _ _ _ _) in *. set (s1 := setParent c2 None _) in *.
  assert (Hcount : CompsCount (panel c1) = CompsCount (panel c) - 1).
  { unfold CompsCount, c1. cbn [panel comps].
    rewrite length_delete by by eexists.
    apply lookup_lt_Some in Hi. lia. }
  assert (Hlen1 : CompsCount (tabBarImpl c1) = CompsCount (panel c1)).
  { unfold CompsCount, c1. cbn [panel tabBarImpl comps].
    rewrite !length_delete by by eexists. by rewrite (wf_length _ _ Hwf). }
  assert (Hpanic : ∀ idx, idx < CompsCount (panel c1) →
            SetSelected idx c1 s1 = None).
  { intros idx Hidx. apply SetSelected_panics; [done|cbn; lia|].
    apply CompAt_outside. cbn [selected c1]. lia. }
  rewrite bool_decide_eq_false_2 by lia.
  rewrite bool_decide_eq_true_2 by lia.
  rewrite bool_decide_eq_false_2 by lia.
  rewrite !Hpanic by lia. by destruct (bool_decide _).
Qed.


Lemma wf_added c s tab content f k :
  wf c s → parent s !! tab = None → parent s !! content = None →
  content ≠ tab → k < CompsCount (panel c) + 1 →
  wf (mkTabPanel (mkPanel (id (panel c)) (comps (panel c) ++ [content]))
        (mkPanel (id (tabBarImpl c)) (comps (tabBarImpl c) ++ [tab]))
        (tabBarPlacement c) k)
     (Style_update tab f
        (setParent content (Some (id (panel c)))
           (setParent tab (Some (id (tabBarImpl c))) s))).
Proof.
  intros Hwf Htab Hcontent Hne Hk.
  assert (Hfree : ∀ x, parent s !! x = None →
            (x ∉ comps (panel c)) ∧ (x ∉ comps (tabBarImpl c)) ∧
            x ≠ id (tabBarImpl c)).
  { intros x Hx. repeat split.
    - intros Hin. rewrite (wf_comps_parent _ _ Hwf _ Hin) in Hx. done.
    - intros Hin. rewrite (wf_tabs_parent _ _ Hwf _ Hin) in Hx. done.
    - intros ->. rewrite (wf_tabBar_parent _ _ Hwf) in Hx. done. }
  destruct (Hfree _ Htab) as (Ht1 & Ht2 & Ht3).
  destruct (Hfree _ Hcontent) as (Hc1 & Hc2 & Hc3).
  split; cbn [panel tabBarImpl comps id selected Style_update parent].
  - rewrite !length_app. cbn. by rewrite (wf_length _ _ Hwf).
  - apply NoDup_app. split; [apply (wf_tabs_nodup _ _ Hwf)|]. split.
    + intros x Hx ->%list_elem_of_singleton. done.
    + apply NoDup_singleton.
  - apply NoDup_app. split; [apply (wf_comps_nodup _ _ Hwf)|]. split.
    + intros x Hx ->%list_elem_of_singleton. done.
    + apply NoDup_singleton.
  - intros x Hx. rewrite !parent_setParent.
    apply elem_of_app in Hx as [Hx| ->%list_elem_of_singleton].
    + rewrite decide_False by (by intros ->).
      rewrite decide_False by (by intros ->).
      by apply (wf_tabs_parent _ _ Hwf).
    + rewrite decide_False by done. by rewrite decide_True.
  - intros x Hx. rewrite !parent_setParent.
    apply elem_of_app in Hx as [Hx| ->%list_elem_of_singleton].
    + rewrite decide_False by (by intros ->).
      rewrite decide_False by (by intros ->).
      by apply (wf_comps_parent _ _ Hwf).
    + by rewrite decide_True.
  - apply (wf_ids _ _ Hwf).
  - rewrite !parent_setParent.
    rewrite decide_False by done. rewrite decide_False by done.
    apply (wf_tabBar_parent _ _ Hwf).
  - intros [Hx|Hx%list_elem_of_singleton]%elem_of_app; [|done].
    by apply (wf_tabBar_notin _ _ Hwf).
  - unfold CompsCount in *. cbn [comps]. rewrite length_app. cbn. lia.
Qed.

Lemma Add_wf tab content c s c' s' :
  wf c s → Add tab content c s = Some (c', s') →
  wf c' s' ∧
  comps (tabBarImpl c') = (comps (tabBarImpl c) ++ [tab])%list ∧
  comps (panel c') = (comps (panel c) ++ [content])%list.
Proof.
  intros Hwf. unfold Add, panelImpl_Add.
  destruct (parent s !! tab) eqn:Htab; [done|]. cbn [mbind option_bind].
  rewrite parent_setParent.
  destruct (decide (content = tab)) as [->|Hne]; [done|].
  destruct (parent s !! content) eqn:Hcontent; [done|]. cbn [mbind option_bind].
  pose proof (wf_added c s tab content (AddClass "gwu-TabBar-NotSelected"))
    as Hadd.
  pose proof (wf_selected _ _ Hwf) as Hsel.
  set (c1 := mkTabPanel _ _ _ _) in *. set (s1 := Style_update _ _ _) in *.
  assert (Hcount : CompsCount (panel c1) = CompsCount (panel c) + 1).
  { unfold CompsCount, c1. cbn [panel comps]. rewrite length_app. cbn. lia. }
  case_bool_decide as H1.
  - intros E.
    destruct (SetSelected_frame _ _ _ _ _ E) as (Hp & Hb & _ & Hs & _ & Hsl).
    rewrite Hp, Hb. split; [|done].
    apply (wf_change (set_selected 0 c1) s1); try done.
    + apply Hadd; try done. lia.
    + rewrite Hsl, Hp. case_bool_decide; cbn [selected c1]; lia.
  - intros [= <- <-]. split; [|done].
    apply Hadd; try done. lia.
Qed.

Lemma Add_is_Some tab content c s :
  wf c s → parent s !! tab = None → parent s !! content = None →
  content ≠ tab → is_Some (Add tab content c s).
Proof.
  intros Hwf Htab Hcontent Hne. unfold Add, panelImpl_Add.
  rewrite Htab. cbn [mbind option_bind].
  rewrite parent_setParent, decide_False by done.
  rewrite Hcontent. cbn [mbind option_bind].
  pose proof (wf_added c s tab content (AddClass "gwu-TabBar-NotSelected"))
    as Hadd.
  pose proof (wf_selected _ _ Hwf) as Hsel.
  set (c1 := mkTabPanel _ _ _ _) in *. set (s1 := Style_update _ _ _) in *.
  case_bool_decide as H1; [|done].
  destruct (SetSelected_wf 0 c1 s1) as (c' & s' & -> & _); [|done].
  apply Hadd; try done. lia.
Qed.

Lemma Clear_wf c s c' s' :
  wf c s → Clear c s = Some (c', s') →
  wf c' s' ∧ comps (tabBarImpl c') = [] ∧ comps (panel c') = [].
Proof.
  intros Hwf. unfold Clear, panelImpl_Clear.
  set (c1 := mkTabPanel _ _ _ _). set (s1 := foldr _ _ (comps (panel c))).
  intros E.
  destruct (SetSelected_frame _ _ _ _ _ E) as (Hp & Hb & _ & Hs & _ & Hsl).
  rewrite Hp, Hb. split; [|done].
  rewrite bool_decide_eq_false_2 in Hsl by (unfold CompsCount; cbn; lia).
  split; rewrite ?Hp, ?Hb, ?Hs, ?Hsl; cbn [c1 panel tabBarImpl comps id];
    try done.
  - apply NoDup_nil_2.
  - apply NoDup_nil_2.
  - intros x Hx. by apply elem_of_nil in Hx.
  - intros x Hx. by apply elem_of_nil in Hx.
  - apply (wf_ids _ _ Hwf).
  - unfold s1. rewrite !parent_Clear.
    rewrite decide_False by apply (wf_tabBar_notin _ _ Hwf).
    rewrite decide_False by by eapply wf_tabBar_not_tab.
    apply (wf_tabBar_parent _ _ Hwf).
  - apply not_elem_of_nil.
Qed.


Lemma NewTabPanel_wf s :
  wf (NewTabPanel s).1 (NewTabPanel s).2 ∧
  comps (tabBarImpl (NewTabPanel s).1) = [] ∧
  comps (panel (NewTabPanel s).1) = [] ∧
  selected (NewTabPanel s).1 = -1.
Proof.
  split; [|done]. unfold NewTabPanel, SetTabBarPlacement.
  split; cbn [fst snd panel tabBarImpl comps id selected Style_update parent].
  - done.
  - apply NoDup_nil_2.
  - apply NoDup_nil_2.
  - intros x Hx. by apply elem_of_nil in Hx.
  - intros x Hx. by apply elem_of_nil in Hx.
  - lia.
  - by rewrite parent_setParent, decide_True.
  - apply not_elem_of_nil.
  - unfold CompsCount. cbn. lia.
Qed.

Lemma tabBarImpl_Remove_absent c s c2 :
  c2 ∉ comps (tabBarImpl c) → tabBarImpl_Remove c2 c s = Some (false, (c, s)).
Proof.
  intros Hnin. unfold tabBarImpl_Remove. rewrite (CompIdx_notin _ _ Hnin).
  by rewrite bool_decide_eq_true_2 by lia.
Qed.

(** [Remove] of the tab bar is [Remove] of the tab panel. *)
Lemma tabBarImpl_Remove_tab c s c2 :
  wf c s → c2 ∈ comps (tabBarImpl c) →
  tabBarImpl_Remove c2 c s = Remove c2 c s.
Proof.
  intros Hwf Hin.
  destruct (CompIdx_found _ _ Hin) as (i & Hidx & Hi).
  assert (Hnin : c2 ∉ comps (panel c)) by (intros ?; by eapply wf_disjoint).
  unfold tabBarImpl_Remove, Remove. rewrite Hidx.
  rewrite bool_decide_eq_false_2 by lia.
  rewrite (wf_tabBar_parent _ _ Hwf), bool_decide_eq_true_2 by done.
  rewrite (Remove_fuel_tab 1 _ _ _ i Hnin (wf_tabs_nodup _ _ Hwf) Hi).
  rewrite CompAt_nat. destruct (comps (panel c) !! i) as [c3|] eqn:E; [|done].
  cbn [mbind option_bind]. unfold Remove.
  apply (Remove_fuel_member 1). by eapply list_elem_of_lookup_2.
Qed.

(** *** The sequence of pairs *)

Lemma filter_delete_one {A} (P : A → Prop) `{∀ x, Decision (P x)}
    (l : list A) (i : nat) x :
  l !! i = Some x → ¬ P x → (∀ j y, l !! j = Some y → j ≠ i → P y) →
  filter P l = delete i l.
Proof.
  revert i. induction l as [|y l IH]; intros [|i] Hi Hx Hrest; try done.
  - injection Hi as ->. rewrite filter_cons_False by done. simpl.
    clear IH. induction l as [|z l IH]; [done|].
    rewrite filter_cons_True by (apply (Hrest 1%nat); [done|lia]).
    f_equal. apply IH. intros [|j] y Hj Hne; [done|].
    apply (Hrest (S (S j))); [done|lia].
  - rewrite filter_cons_True by (apply (Hrest 0%nat); [done|lia]).
    simpl. f_equal. apply (IH i); [done|done|].
    intros j z Hj Hne. apply (Hrest (S j)); [done|lia].
Qed.

Lemma filter_all {A} (P : A → Prop) `{∀ x, Decision (P x)} (l : list A) :
  (∀ y, y ∈ l → P y) → filter P l = l.
Proof.
  induction l as [|y l IH]; intros Hall; [done|].
  rewrite filter_cons_True by (apply Hall, list_elem_of_here).
  f_equal. apply IH. intros z Hz. by apply Hall, list_elem_of_further.
Qed.


Lemma refines_lookup ps c (i : nat) :
  refines ps c →
  comps (tabBarImpl c) !! i = fst <$> ps !! i ∧
  comps (panel c) !! i = snd <$> ps !! i.
Proof. intros [-> ->]. by rewrite !list_lookup_fmap. Qed.

Lemma Remove_at_refines n ps c s c3 (i : nat) b c' s' :
  wf c s → refines ps c → comps (panel c) !! i = Some c3 →
  Remove_fuel (S n) c3 c s = Some (b, (c', s')) →
  wf c' s' ∧ refines (delete i ps) c'.
Proof.
  intros Hwf [Ht Hc] Hi E.
  destruct (Remove_content_wf _ _ _ _ _ _ _ _ Hwf Hi E)
    as (_ & Hwf' & Hc' & Ht' & _).
  split; [done|]. split; rewrite list_fmap_delete; congruence.
Qed.

Lemma wf_pairs_filter ps c s (i : nat) p (P : ID * ID → Prop)
    `{∀ x, Decision (P x)} :
  wf c s → refines ps c → ps !! i = Some p → ¬ P p →
  (∀ q, q.1 ≠ p.1 → q.2 ≠ p.2 → q.1 ∈ comps (tabBarImpl c) →
        q.2 ∈ comps (panel c) → P q) →
  filter P ps = delete i ps.
Proof.
  intros Hwf Href Hi Hp Hq. apply (filter_delete_one P ps i p Hi Hp).
  intros j q Hj Hne.
  destruct (refines_lookup _ _ i Href) as [Hti Hci].
  destruct (refines_lookup _ _ j Href) as [Htj Hcj].
  rewrite Hi in Hti, Hci. rewrite Hj in Htj, Hcj. simpl in *.
  apply Hq.
  - intros Heq. rewrite Heq in Htj.
    pose proof (NoDup_lookup _ _ _ _ (wf_tabs_nodup _ _ Hwf) Hti Htj). lia.
  - intros Heq. rewrite Heq in Hcj.
    pose proof (NoDup_lookup _ _ _ _ (wf_comps_nodup _ _ Hwf) Hci Hcj). lia.
  - by eapply list_elem_of_lookup_2.
  - by eapply list_elem_of_lookup_2.
Qed.

Lemma Remove_tab_refines ps c s c2 (i : nat) b c' s' :
  wf c s → refines ps c → comps (tabBarImpl c) !! i = Some c2 →
  Remove c2 c s = Some (b, (c', s')) →
  wf c' s' ∧ refines (delete i ps) c'.
Proof.
  intros Hwf Href Hi. unfold Remove.
  assert (Hnin : c2 ∉ comps (panel c)).
  { intros ?. eapply wf_disjoint; [done| |done]. by eapply list_elem_of_lookup_2. }
  rewrite (Remove_fuel_tab 1 _ _ _ i Hnin (wf_tabs_nodup _ _ Hwf) Hi).
  destruct (comps (panel c) !! i) as [c3|] eqn:Hc3; [|done].
  cbn [mbind option_bind]. by eapply Remove_at_refines.
Qed.

Lemma Remove_refines ps c s c2 b c' s' :
  wf c s → refines ps c → Remove c2 c s = Some (b, (c', s')) →
  wf c' s' ∧ refines (filter (λ p, p.1 ≠ c2 ∧ p.2 ≠ c2) ps) c'.
Proof.
  intros Hwf Href.
  destruct (decide (c2 ∈ comps (panel c))) as [Hin|Hnin].
  - apply list_elem_of_lookup in Hin as [i Hi]. intros E.
    destruct (refines_lookup _ _ i Href) as [_ Hci]. rewrite Hi in Hci.
    destruct (ps !! i) as [p|] eqn:Hp; [|done]. injection Hci as Hci.
    rewrite (wf_pairs_filter ps c s i p _ Hwf Href Hp).
    + by eapply Remove_at_refines.
    + intros [_ ?]. done.
    + intros q _ Hq Hqt _. split; [|congruence].
      intros Heq. rewrite Heq in Hqt. eapply wf_disjoint; [done..|].
      by eapply list_elem_of_lookup_2.
  - destruct (decide (c2 ∈ comps (tabBarImpl c))) as [Hint|Hnint].
    + apply list_elem_of_lookup in Hint as [i Hi]. intros E.
      destruct (refines_lookup _ _ i Href) as [Hti _]. rewrite Hi in Hti.
      destruct (ps !! i) as [p|] eqn:Hp; [|done]. injection Hti as Hti.
      rewrite (wf_pairs_filter ps c s i p _ Hwf Href Hp).
      * by eapply Remove_tab_refines.
      * intros [? _]. done.
      * intros q Hq _ _ Hqc. split; [congruence|].
        intros Heq. by rewrite Heq in Hqc.
    + unfold Remove.
      rewrite (Remove_fuel_absent 1 _ _ _ Hnin Hnint). intros [= <- <- <-].
      split; [done|]. rewrite filter_all; [done|].
      intros q Hq. destruct Href as [Ht Hc]. split; intros Heq.
      * apply Hnint. rewrite Ht, <- Heq. by apply list_elem_of_fmap_2.
      * apply Hnin. rewrite Hc, <- Heq. by apply list_elem_of_fmap_2.
Qed.

Lemma tabBarImpl_Remove_refines ps c s c2 b c' s' :
  wf c s → refines ps c → tabBarImpl_Remove c2 c s = Some (b, (c', s')) →
  wf c' s' ∧ refines (filter (λ p, p.1 ≠ c2) ps) c'.
Proof.
  intros Hwf Href.
  destruct (decide (c2 ∈ comps (tabBarImpl c))) as [Hint|Hnint].
  - rewrite (tabBarImpl_Remove_tab _ _ _ Hwf Hint). intros E.
    apply list_elem_of_lookup in Hint as [i Hi].
    destruct (refines_lookup _ _ i Href) as [Hti _]. rewrite Hi in Hti.
    destruct (ps !! i) as [p|] eqn:Hp; [|done]. injection Hti as Hti.
    rewrite (wf_pairs_filter ps c s i p _ Hwf Href Hp).
    + by eapply Remove_tab_refines.
    + intros ?. done.
    + intros q Hq _ _ _. congruence.
  - rewrite (tabBarImpl_Remove_absent _ _ _ Hnint). intros [= <- <- <-].
    split; [done|]. rewrite filter_all; [done|].
    intros q Hq Heq. destruct Href as [Ht Hc].
    apply Hnint. rewrite Ht, <- Heq. by apply list_elem_of_fmap_2.
Qed.

Lemma do_call_refines k ps c s c' s' :
  wf c s → refines ps c → do_call k c s = Some (c', s') →
  wf c' s' ∧ refines (spec_step ps k) c'.
Proof.
  intros Hwf Href.
  destruct k as [tab content|c2|c2| |idx|content|pl]; cbn [do_call spec_step].
  - intros E. destruct (Add_wf _ _ _ _ _ _ Hwf E) as (Hwf' & Ht & Hc).
    split; [done|]. destruct Href as [Ht0 Hc0].
    split; rewrite fmap_app; cbn; congruence.
  - destruct (Remove c2 c s) as [[b [c1 s1]]|] eqn:E; [|done].
    intros [= <- <-]. by eapply Remove_refines.
  - destruct (tabBarImpl_Remove c2 c s) as [[b [c1 s1]]|] eqn:E; [|done].
    intros [= <- <-]. by eapply tabBarImpl_Remove_refines.
  - intros E. destruct (Clear_wf _ _ _ _ Hwf E) as (Hwf' & Ht & Hc).
    split; [done|]. by split.
  - intros E. destruct (SetSelected_wf idx c s Hwf) as (c1 & s1 & E1 & Hwf').
    rewrite E in E1. injection E1 as <- <-. split; [done|].
    destruct (SetSelected_frame _ _ _ _ _ E) as (Hp & Hb & _).
    destruct Href. split; congruence.
  - unfold click_handler. intros E.
    destruct (SetSelected_wf (CompIdx (panel c) content) c s Hwf)
      as (c1 & s1 & E1 & Hwf').
    rewrite E in E1. injection E1 as <- <-. split; [done|].
    destruct (SetSelected_frame _ _ _ _ _ E) as (Hp & Hb & _).
    destruct Href. split; congruence.
  - intros [= <- <-]. split; [|done].
    apply (wf_change c s); try done. apply (wf_selected _ _ Hwf).
Qed.

Lemma do_calls_refines ks ps c s c' s' :
  wf c s → refines ps c → do_calls ks c s = Some (c', s') →
  wf c' s' ∧ refines (foldl spec_step ps ks) c'.
Proof.
  revert ps c s. induction ks as [|k ks IH]; intros ps c s Hwf Href.
  - by intros [= <- <-].
  - cbn [do_calls foldl].
    destruct (do_call k c s) as [[c1 s1]|] eqn:E; [|done].
    cbn [mbind option_bind].
    destruct (do_call_refines _ _ _ _ _ _ Hwf Href E). by apply IH.
Qed.

Lemma run_from_refines s0 ks c s :
  run_from s0 ks = Some (c, s) → wf c s ∧ refines (spec_pairs ks) c.
Proof.
  unfold run_from, spec_pairs.
  pose proof (NewTabPanel_wf s0) as (Hwf & Ht & Hc & _).
  destruct (NewTabPanel s0) as [c0 s1]. simpl in *.
  apply do_calls_refines; [done|]. by split.
Qed.

Lemma Remove_content_is_Some n c s c2 (i : nat) :
  wf c s → comps (panel c) !! i = Some c2 →
  ¬ (selected c = Z.of_nat i ∧ Z.of_nat i + 1 = CompsCount (panel c)) →
  is_Some (Remove_fuel (S n) c2 c s).
Proof.
  intros Hwf Hi Hnot. destruct (wf_tab_at _ _ _ _ Hwf Hi) as [t Ht].
  rewrite (Remove_fuel_content n c s c2 i t
             (wf_comps_nodup _ _ Hwf) (wf_tabs_nodup _ _ Hwf) Hi Ht).
  assert (Hlt : Z.of_nat i < CompsCount (panel c)).
  { unfold CompsCount. apply lookup_lt_Some in Hi. lia. }
  set (c1 := mkTabPanel _ _ _ _) in *. set (s1 := setParent c2 None _) in *.
  assert (Hcount : CompsCount (panel c1) = CompsCount (panel c) - 1).
  { unfold CompsCount, c1 in *. cbn [panel comps].
    rewrite length_delete by by eexists. lia. }
  assert (Hlen1 : CompsCount (tabBarImpl c1) = CompsCount (panel c1)).
  { unfold CompsCount, c1. cbn [panel tabBarImpl comps].
    rewrite !length_delete by by eexists. by rewrite (wf_length _ _ Hwf). }
  case_bool_decide as H1; [done|].
  case_bool_decide as H2; [|done].
  rewrite bool_decide_eq_true_2 by lia.
  assert (Hat : is_Some (CompAt (tabBarImpl c1) (Z.of_nat i))).
  { rewrite CompAt_nat. apply lookup_lt_is_Some.
    unfold CompsCount in Hlen1, Hcount, Hlt, Hnot. lia. }
  destruct (SetSelected_is_Some (Z.of_nat i) c1 s1) as [[c3 s3] ->]; [| |done].
  - right. cbn [selected c1]. by rewrite <- H2.
  - by right; right.
Qed.






(** C2.  [Remove] of the content at index [i] of a panel that calls have
    produced.  When the pair is the selected one and the last one, the call
    panics: [SetSelected] asks the tab bar, already one tab shorter, for the
    tab at the old selected index and calls [Style] on nil.  In every other
    case it returns true and the selected index is one less when [i] was
    before it, and is the same number otherwise (the pair after the removed
    one is then the selected one). *)
Theorem Remove_adjusts_selected_index (s0 : store) (ks : list call)
    (c : tabPanelImpl) (s : store) (i : nat) (c2 : ID) :
  run_from s0 ks = Some (c, s) →
  comps (panel c) !! i = Some c2 →
  (Selected c = Z.of_nat i ∧ Z.of_nat i + 1 = CompsCount (panel c) →
     Remove c2 c s = None) ∧
  (¬ (Selected c = Z.of_nat i ∧ Z.of_nat i + 1 = CompsCount (panel c)) →
     ∃ c' s', Remove c2 c s = Some (true, (c', s')) ∧
       Selected c' = if decide (Z.of_nat i < Selected c) then Selected c - 1
                     else Selected c).
Proof.
  intros Hrun Hi. destruct (run_from_refines _ _ _ _ Hrun) as [Hwf _].
  split.
  - intros [Hsel Hlast]. by eapply Remove_selected_last_panics.
  - intros Hnot.
    destruct (Remove_content_is_Some 1 c s c2 i Hwf Hi Hnot) as [[b [c' s']] E].
    destruct (Remove_content_wf _ _ _ _ _ _ _ _ Hwf Hi E) as (-> & _ & _ & _ & Hsel).
    by exists c', s'.
Qed.

(** The failing input: the only pair of a panel, selected, is removed.  The
    panel with three pairs, by contrast, survives the removal of its first,
    selected pair. *)
Lemma Remove_adjusts_selected_index_witness :
  Remove 2 one_pair.1 one_pair.2 = None ∧
  ∃ c' s', Remove 2 three_pairs.1 three_pairs.2 = Some (true, (c', s')) ∧
           Selected c' = 0.
Proof.
  split.
  - apply (proj1 (Remove_adjusts_selected_index empty_store [CallAdd 1 2]
                    one_pair.1 one_pair.2 0 2 eq_refl eq_refl)).
    split; reflexivity.
  - apply (proj2 (Remove_adjusts_selected_index empty_store three_tabs
                    three_pairs.1 three_pairs.2 0 2 eq_refl eq_refl)).
    intros [_ Hlast]. by vm_compute in Hlast.
Defined.

(** C3.  [SetSelected] on a panel that calls have produced: with a negative
    index it returns and [Selected] then returns that index (-1 only for
    the index -1); with an index that is not below the number of contents it
    changes neither the panel nor the store of styles; and [Selected] is
    below the number of contents. *)
Theorem SetSelected_negative_or_too_large (s0 : store) (ks : list call)
    (c : tabPanelImpl) (s : store) (idx : Z) :
  run_from s0 ks = Some (c, s) →
  (idx < 0 → ∃ c' s', SetSelected idx c s = Some (c', s') ∧ Selected c' = idx) ∧
  (CompsCount (panel c) ≤ idx → SetSelected idx c s = Some (c, s)) ∧
  Selected c < CompsCount (panel c).
Proof.
  intros Hrun. destruct (run_from_refines _ _ _ _ Hrun) as [Hwf _].
  split; [|split].
  - intros Hneg. destruct (SetSelected_wf idx c s Hwf) as (c' & s' & E & _).
    exists c', s'. split; [done|].
    destruct (SetSelected_frame _ _ _ _ _ E) as (_ & _ & _ & _ & _ & Hsel).
    unfold Selected. rewrite Hsel.
    rewrite bool_decide_eq_false_2; [done|]. unfold CompsCount. lia.
  - apply SetSelected_noop.
  - apply (wf_selected _ _ Hwf).
Qed.

(** The failing input: after [SetSelected (-5)] on the new panel, [Selected]
    returns -5. *)
Lemma SetSelected_negative_or_too_large_witness :
  ∃ c' s', SetSelected (-5) new_panel.1 new_panel.2 = Some (c', s') ∧
           Selected c' = -5.
Proof.
  apply (proj1 (SetSelected_negative_or_too_large empty_store []
                  new_panel.1 new_panel.2 (-5) eq_refl)).
  reflexivity.
Defined.

(** C10.  [Remove] called on the tab bar of a panel that calls have
    produced: for a component that is not a tab it returns false and changes
    nothing; for the tab at index [i] it is [Remove] of the tab panel for the
    content at index [i], so it panics as that call does when the pair is
    the selected one and the last one. *)
Theorem tabBar_Remove_is_tabPanel_Remove (s0 : store) (ks : list call)
    (c : tabPanelImpl) (s : store) :
  run_from s0 ks = Some (c, s) →
  (∀ c2, c2 ∉ comps (tabBarImpl c) →
     tabBarImpl_Remove c2 c s = Some (false, (c, s))) ∧
  (∀ (i : nat) t, comps (tabBarImpl c) !! i = Some t →
     ∃ c3, comps (panel c) !! i = Some c3 ∧
           tabBarImpl_Remove t c s = Remove c3 c s) ∧
  (∀ (i : nat) t, comps (tabBarImpl c) !! i = Some t →
     Selected c = Z.of_nat i → Z.of_nat i + 1 = CompsCount (panel c) →
     tabBarImpl_Remove t c s = None).
Proof.
  intros Hrun. destruct (run_from_refines _ _ _ _ Hrun) as [Hwf _].
  assert (Hsame : ∀ (i : nat) t, comps (tabBarImpl c) !! i = Some t →
            ∃ c3, comps (panel c) !! i = Some c3 ∧
                  tabBarImpl_Remove t c s = Remove c3 c s).
  { intros i t Ht.
    assert (Hin : t ∈ comps (tabBarImpl c)) by by eapply list_elem_of_lookup_2.
    assert (Hnin : t ∉ comps (panel c)) by (intros ?; by eapply wf_disjoint).
    destruct (lookup_lt_is_Some_2 (comps (panel c)) i) as [c3 Hc3].
    { rewrite <- (wf_length _ _ Hwf). by eapply lookup_lt_Some. }
    exists c3. split; [done|].
    rewrite (tabBarImpl_Remove_tab _ _ _ Hwf Hin). unfold Remove.
    rewrite (Remove_fuel_tab 1 _ _ _ i Hnin (wf_tabs_nodup _ _ Hwf) Ht), Hc3.
    cbn [mbind option_bind]. symmetry.
    apply (Remove_fuel_member 1). by eapply list_elem_of_lookup_2. }
  split; [|split].
  - intros c2. apply tabBarImpl_Remove_absent.
  - exact Hsame.
  - intros i t Ht Hsel Hlast. destruct (Hsame i t Ht) as (c3 & Hc3 & ->).
    by eapply Remove_selected_last_panics.
Qed.

(** The failing input: the only tab of a panel, selected, is removed through
    the tab bar; a component that is not a tab is not removed. *)
Lemma tabBar_Remove_is_tabPanel_Remove_witness :
  tabBarImpl_Remove 1 one_pair.1 one_pair.2 = None ∧
  tabBarImpl_Remove 2 one_pair.1 one_pair.2 = Some (false, one_pair).
Proof.
  destruct (tabBar_Remove_is_tabPanel_Remove empty_store [CallAdd 1 2]
              one_pair.1 one_pair.2 eq_refl) as (Habsent & _ & Hpanic).
  split.
  - apply (Hpanic 0%nat); reflexivity.
  - apply Habsent. intros Hin.
    change (comps (tabBarImpl one_pair.1)) with [1] in Hin.
    by apply list_elem_of_singleton in Hin.
Defined.

End TabPanelFacts.

(** * More facts about radio groups and state buttons *)
Section RadioGroupFacts.
Import StateButton.

Lemma run_heap_inv ks h : do_calls ks empty_heap = Some h → heap_inv h.
Proof. intros H. eapply do_calls_heap_inv; [apply heap_inv_empty|done]. Qed.

(** Rewrites what the methods answer after the setter equation [H] into
    what they answer before it. *)
Ltac rewind H :=
  lazymatch type of H with
  | setStateProp _ _ _ = Some _ =>
      repeat first
        [ rewrite (setStateProp_State _ _ _ _ _ H) in *
        | rewrite (setStateProp_Group _ _ _ _ _ H) in *
        | rewrite (setStateProp_Selected _ _ _ _ _ H) in *
        | rewrite (setStateProp_PrevSelected _ _ _ _ _ H) in * ]
  | setSelected _ _ _ = Some _ =>
      repeat first
        [ rewrite (setSelected_State _ _ _ _ _ H) in *
        | rewrite (setSelected_Group _ _ _ _ _ H) in *
        | rewrite (setSelected_Selected _ _ _ _ _ H) in *
        | rewrite (setSelected_PrevSelected _ _ _ _ _ H) in * ]
  end.

Ltac by_cases :=
  repeat match goal with
    | |- context [decide ?P] => destruct (decide P)
    | H : context [decide ?P] |- _ => destruct (decide P)
    end.

Lemma SetState_prev_off c st h h' :
  heap_inv h → prev_off h → SetState c st h = Some h' → prev_off h'.
Proof.
  intros Hinv Hprev H. destruct (SetState_cases _ _ _ _ H)
    as [HS ->|HS HG H1|g h1 HS -> HG Hsel H1 H2|g HS -> HG Hsel H1
       |g sel h1 h2 HS -> HG Hsel Hne H1 H2 H3|g HS -> HG Hsel H1
       |g sel h1 HS -> HG Hsel H1 H2]; [done|..];
    destruct Hinv as [Hg Hon Hs Hid Hloc]; unfold member_on, prev_off in *.
  - intros g p. rewind H1. by_cases; simplify_eq; naive_solver.
  - intros g' p. rewind H2. rewind H1. by_cases; simplify_eq; naive_solver.
  - pose proof (Hon _ _ (conj HG HS)). congruence.
  - destruct (Hs _ _ Hsel) as [HGsel HSsel].
    intros g' p. rewind H3. rewind H2. rewind H1.
    by_cases; simplify_eq; naive_solver.
  - destruct (Hs _ _ Hsel). congruence.
  - pose proof (Hon _ _ (conj HG HS)) as Hc. rewrite Hsel in Hc.
    injection Hc as ->.
    intros g' p. rewind H2. rewind H1. by_cases; simplify_eq; naive_solver.
Qed.


Lemma new_button_obs text ty og f h :
  let h' := set_buttons (alter (set_classes f) (nextId h))
              (newStateButtonImpl text ty og h).2 in
  (∀ c, State c h' = if decide (c = nextId h) then Some false else State c h) ∧
  (∀ c, Group c h' = if decide (c = nextId h) then Some og else Group c h) ∧
  (∀ g, Selected g h' = Selected g h) ∧
  (∀ g, PrevSelected g h' = PrevSelected g h).
Proof.
  intros h'. repeat split; try done; intros c;
    unfold State, Group, h', newStateButtonImpl, set_buttons; simpl;
    rewrite alter_insert_eq; case_decide; subst;
    by rewrite ?lookup_insert_eq, ?lookup_insert_ne.
Qed.

Lemma new_button_prev_off text ty og f h :
  heap_inv h → prev_off h →
  prev_off (set_buttons (alter (set_classes f) (nextId h))
              (newStateButtonImpl text ty og h).2).
Proof.
  intros Hinv Hprev g p.
  destruct (new_button_obs text ty og f h) as (HS & HG & _ & HP).
  rewrite HP, HS, HG. intros Hp. destruct (Hprev _ _ Hp) as [Hgp Hsp].
  assert (p ≠ nextId h).
  { intros ->. pose proof (inv_nextId _ Hinv (nextId h)) as Hlt.
    rewrite Hsp in Hlt. specialize (Hlt (mk_is_Some _ _ eq_refl)). lia. }
  by rewrite !decide_False.
Qed.

Lemma NewRadioGroup_prev_off name h :
  heap_inv h → prev_off h → prev_off (NewRadioGroup name h).2.
Proof.
  intros Hinv Hprev g p.
  change (Group p (NewRadioGroup name h).2) with (Group p h).
  change (State p (NewRadioGroup name h).2) with (State p h).
  unfold PrevSelected, NewRadioGroup. simpl.
  destruct (decide (nextLoc h = g)) as [<-|Hne].
  - by rewrite lookup_insert_eq.
  - rewrite lookup_insert_ne by done. apply Hprev.
Qed.

Lemma do_calls_prev_off ks h h' :
  heap_inv h → prev_off h → do_calls ks h = Some h' → prev_off h'.
Proof.
  revert h. induction ks as [|k ks IH]; intros h Hinv Hprev; simpl.
  - by intros [= <-].
  - destruct (do_call k h) as [h1|] eqn:Hk; [|done]. simpl.
    apply IH; [by eapply do_call_heap_inv|].
    destruct k as [name|text|text [g|]|c st]; simpl in Hk.
    + injection Hk as <-. by apply NewRadioGroup_prev_off.
    + injection Hk as <-. by apply new_button_prev_off.
    + destruct (groups h !! g); [|done]. injection Hk as <-.
      by apply new_button_prev_off.
    + injection Hk as <-. by apply new_button_prev_off.
    + by eapply SetState_prev_off.
Qed.

(** X1.  After any calls of the client, the button [Selected] returns for a
    group is a member of that group and its state is [true]; the button
    [PrevSelected] returns is a member of the group, its state is [false],
    and it is not the button [Selected] returns. *)
Theorem Selected_and_PrevSelected_are_members (ks : list call) (h : heap)
    (g : loc) :
  do_calls ks empty_heap = Some h →
  (∀ c, Selected g h = Some (Some c) →
     Group c h = Some (Some g) ∧ State c h = Some true) ∧
  (∀ p, PrevSelected g h = Some (Some p) →
     Group p h = Some (Some g) ∧ State p h = Some false ∧
     Selected g h ≠ Some (Some p)).
Proof.
  intros Hrun. pose proof (run_heap_inv _ _ Hrun) as Hinv. split.
  - intros c. apply (inv_sel _ Hinv).
  - intros p Hp.
    assert (Hprev : prev_off h).
    { eapply do_calls_prev_off; [apply heap_inv_empty| |done].
      intros g' p'. unfold PrevSelected. simpl. by rewrite lookup_empty. }
    destruct (Hprev _ _ Hp) as [HG HS]. repeat split; try done.
    intros Hsel. apply (inv_sel _ Hinv) in Hsel as [_ Hon]. congruence.
Qed.

(** In the scenario B is selected and A, switched on before B, is the
    previous selection. *)
Lemma Selected_and_PrevSelected_are_members_witness :
  (Group 2 example_heap = Some (Some 1%positive) ∧
   State 2 example_heap = Some true) ∧
  (Group 0 example_heap = Some (Some 1%positive) ∧
   State 0 example_heap = Some false ∧
   Selected 1%positive example_heap ≠ Some (Some 0)).
Proof.
  destruct (Selected_and_PrevSelected_are_members example_calls example_heap
              1%positive eq_refl) as [Hsel Hprev].
  split; [apply (Hsel 2 eq_refl)|apply (Hprev 0 eq_refl)].
Defined.

(** What [SetState] changes and what it leaves. *)
Lemma SetState_effect (h h' : heap) (c : ID) (st : bool) :
  heap_inv h →
  SetState c st h = Some h' →
  State c h' = Some st ∧
  (∀ c', Group c' h' = Group c' h) ∧
  (∀ c', c' ≠ c → State c' h' ≠ State c' h →
     st = true ∧ Group c' h = Group c h ∧
     State c' h = Some true ∧ State c' h' = Some false) ∧
  (∀ g, Group c h ≠ Some (Some g) →
     Selected g h' = Selected g h ∧ PrevSelected g h' = PrevSelected g h).
Proof.
  intros Hinv H.
  split; [by eapply SetState_State|].
  destruct (SetState_cases _ _ _ _ H)
    as [HS ->|HS HG H1|g h1 HS -> HG Hsel H1 H2|g HS -> HG Hsel H1
       |g sel h1 h2 HS -> HG Hsel Hne H1 H2 H3|g HS -> HG Hsel H1
       |g sel h1 HS -> HG Hsel H1 H2]; [done|..];
    destruct Hinv as [Hg Hon Hs Hid Hloc]; unfold member_on in *.
  - repeat split; intros *; rewind H1; by_cases; first [congruence | simplify_eq; naive_solver].
  - repeat split; intros *; rewind H2; rewind H1;
      by_cases; first [congruence | simplify_eq; naive_solver].
  - pose proof (Hon _ _ (conj HG HS)). congruence.
  - destruct (Hs _ _ Hsel) as [HGsel HSsel].
    repeat split; intros *; rewind H3; rewind H2; rewind H1;
      by_cases; first [congruence | simplify_eq; naive_solver].
  - destruct (Hs _ _ Hsel). congruence.
  - repeat split; intros *; rewind H2; rewind H1;
      by_cases; first [congruence | simplify_eq; naive_solver].
Qed.

(** X2.  After any calls of the client, a [SetState] that returns gives the
    button the requested state and leaves the group of every button; another
    button changes its state only when the request was [true] and that
    button was on and in the same group, and it is off afterwards; for the
    groups the button is not in, [Selected] and [PrevSelected] are as
    before. *)
Theorem SetState_changes_its_group_only (ks : list call) (h h' : heap)
    (c : ID) (st : bool) :
  do_calls ks empty_heap = Some h →
  SetState c st h = Some h' →
  State c h' = Some st ∧
  (∀ c', Group c' h' = Group c' h) ∧
  (∀ c', c' ≠ c → State c' h' ≠ State c' h →
     st = true ∧ Group c' h = Group c h ∧
     State c' h = Some true ∧ State c' h' = Some false) ∧
  (∀ g, Group c h ≠ Some (Some g) →
     Selected g h' = Selected g h ∧ PrevSelected g h' = PrevSelected g h).
Proof.
  intros Hrun H. exact (SetState_effect _ _ _ _ (run_heap_inv _ _ Hrun) H).
Qed.

(** In the scenario, switching A on again: A is on, B keeps its group. *)
Lemma SetState_changes_its_group_only_witness :
  State 0 example_heap_A_again = Some true ∧
  Group 2 example_heap_A_again = Group 2 example_heap.
Proof.
  destruct (SetState_changes_its_group_only example_calls example_heap
              example_heap_A_again 0 true eq_refl eq_refl) as (HS & HG & _).
  split; [done|apply HG].
Defined.

(** X3.  After any calls of the client, [SetState] on a radio button of the
    group [g]: with [true], [Selected] of the group returns the button and
    every other member of the group is off; with [false] on the button that
    is on, [Selected] of the group returns nil. *)
Theorem SetState_of_a_radio_button (ks : list call) (h h' : heap)
    (c : ID) (g : loc) (st : bool) :
  do_calls ks empty_heap = Some h →
  Group c h = Some (Some g) →
  SetState c st h = Some h' →
  (st = true → Selected g h' = Some (Some c)) ∧
  (st = true → ∀ c', c' ≠ c → Group c' h' = Some (Some g) →
     State c' h' = Some false) ∧
  (st = false → State c h = Some true → Selected g h' = Some None).
Proof.
  intros Hrun HG H. pose proof (run_heap_inv _ _ Hrun) as Hinv.
  pose proof (SetState_heap_inv _ _ _ _ Hinv H) as Hinv'.
  pose proof (SetState_State _ _ _ _ H) as HS'.
  destruct (SetState_effect _ _ _ _ Hinv H) as (_ & HG' & _).
  assert (Hsel : st = true → Selected g h' = Some (Some c)).
  { intros ->. apply (inv_on _ Hinv'). split; [by rewrite HG'|done]. }
  split; [done|]. split.
  - intros Hst c' Hne Hc'.
    destruct (State c' h') as [[|]|] eqn:E.
    + assert (Selected g h' = Some (Some c')) as Hx
        by (apply (inv_on _ Hinv'); by split).
      rewrite (Hsel Hst) in Hx. congruence.
    + done.
    + unfold Group, State in *. destruct (buttons h' !! c'); done.
  - intros -> Hon.
    destruct (SetState_cases _ _ _ _ H)
      as [HS ->|HS HG0 H1|g1 h1 HS Hst HG0 Hsel0 H1 H2|g1 HS _ HG0 Hsel0 H1
         |g1 sel h1 h2 HS Hst HG0 Hsel0 Hne H1 H2 H3|g1 HS Hst HG0 Hsel0 H1
         |g1 sel h1 HS _ HG0 Hsel0 H1 H2]; try congruence.
    + rewrite (setStateProp_Selected _ _ _ _ _ H1). congruence.
    + rewrite (setStateProp_Selected _ _ _ _ _ H2),
        (setSelected_Selected _ _ _ _ _ H1).
      rewrite decide_True; [done|congruence].
Qed.

(** In the scenario, switching A on again selects A and switches B off. *)
Lemma SetState_of_a_radio_button_witness :
  Selected 1%positive example_heap_A_again = Some (Some 0) ∧
  State 2 example_heap_A_again = Some false.
Proof.
  destruct (SetState_of_a_radio_button example_calls example_heap
              example_heap_A_again 0 1%positive true eq_refl eq_refl eq_refl)
    as (Hsel & Hoff & _).
  split; [by apply Hsel|]. by apply Hoff.
Defined.

(** X4.  After any calls of the client, the button [NewRadioButton] or
    [NewCheckBox] creates is a button the store did not hold; its state is
    [false] and its group is the group given (none for a check box); the
    state and the group of every other button, and [Selected] and
    [PrevSelected] of every group, are as before. *)
Theorem new_button_is_fresh_and_off (ks : list call) (h : heap)
    (text : string) (og : option loc) :
  do_calls ks empty_heap = Some h →
  ∀ c h', (c, h') = NewRadioButton text og h ∨
          (og = None ∧ (c, h') = NewCheckBox text h) →
    State c h = None ∧ State c h' = Some false ∧ Group c h' = Some og ∧
    (∀ c', c' ≠ c →
       State c' h' = State c' h ∧ Group c' h' = Group c' h) ∧
    (∀ g, Selected g h' = Selected g h ∧
          PrevSelected g h' = PrevSelected g h).
Proof.
  intros Hrun c h' Hnew. pose proof (run_heap_inv _ _ Hrun) as Hinv.
  assert (Hfresh : State (nextId h) h = None).
  { destruct (State (nextId h) h) eqn:E; [|done].
    pose proof (inv_nextId _ Hinv (nextId h) (mk_is_Some _ _ E)). lia. }
  assert (∃ ty f, c = nextId h ∧
            h' = set_buttons (alter (set_classes f) (nextId h))
                   (newStateButtonImpl text ty og h).2) as (ty & f & -> & ->).
  { destruct Hnew as [Hnew|[-> Hnew]]; injection Hnew as -> ->;
      by eexists _, _. }
  destruct (new_button_obs text ty og f h) as (HS & HG & Hsel & Hprev).
  split; [done|]. rewrite HS, HG, !decide_True by done.
  split; [done|]. split; [done|]. split.
  - intros c' Hne. by rewrite HS, HG, !decide_False.
  - intros g. by rewrite Hsel, Hprev.
Qed.

(** A third radio button for the group of the scenario. *)
Lemma new_button_is_fresh_and_off_witness :
  State 4 example_heap = None ∧
  State 4 (NewRadioButton "C" (Some 1%positive) example_heap).2 = Some false ∧
  Selected 1%positive (NewRadioButton "C" (Some 1%positive) example_heap).2
  = Selected 1%positive example_heap.
Proof.
  destruct (new_button_is_fresh_and_off example_calls example_heap "C"
              (Some 1%positive) eq_refl 4
              (NewRadioButton "C" (Some 1%positive) example_heap).2)
    as (Hf & Hs & _ & _ & Hg).
  - left. reflexivity.
  - split; [done|]. split; [done|]. apply Hg.
Defined.

End RadioGroupFacts.

(** * Facts about strconv.Itoa and strconv.Atoi *)
Section StrconvFacts.
Import Strconv.

Lemma to_uint_nonnil (n : N) : N.to_uint n ≠ Decimal.Nil.
Proof.
  destruct n as [|p]; [done|]. apply DecimalPos.Unsigned.to_uint_nonnil.
Qed.

(** The digits of a number, read back as a number without a sign. *)
Lemma Atoi_digits (d : Decimal.uint) :
  d ≠ Decimal.Nil →
  (Z.of_N (N.of_uint d) ≤ maxInt)%Z →
  Atoi (DecimalString.NilEmpty.string_of_uint d) = Some (Z.of_N (N.of_uint d)).
Proof.
  intros Hnil Hmax.
  assert (Hrange : (minInt ≤ Z.of_N (N.of_uint d) ≤ maxInt)%Z).
  { split; [|done]. unfold minInt. lia. }
  pose proof (DecimalString.NilEmpty.usu d) as Husu.
  unfold Atoi.
  destruct d as [|d|d|d|d|d|d|d|d|d|d]; [done|..];
    cbn [DecimalString.NilEmpty.string_of_uint] in *;
    cbv iota beta; rewrite Husu; cbn [mbind option_bind];
    by rewrite bool_decide_eq_true_2.
Qed.

Lemma Atoi_Itoa (i : Z) :
  (minInt ≤ i ≤ maxInt)%Z → Atoi (Itoa i) = Some i.
Proof.
  intros Hrange. unfold Itoa. case_bool_decide as Hneg.
  - unfold Atoi. cbv iota beta.
    pose proof (to_uint_nonnil (Z.to_N (- i))) as Hnil.
    pose proof (DecimalString.NilEmpty.usu (N.to_uint (Z.to_N (- i)))) as Husu.
    destruct (N.to_uint (Z.to_N (- i))) eqn:Hd; [done|..];
      cbn [DecimalString.NilEmpty.string_of_uint] in *;
      rewrite Husu; cbn [mbind option_bind];
      rewrite <- Hd, DecimalN.Unsigned.of_to, Z2N.id by lia;
      rewrite bool_decide_eq_true_2 by lia; f_equal; lia.
  - rewrite Atoi_digits.
    + by rewrite DecimalN.Unsigned.of_to, Z2N.id by lia.
    + apply to_uint_nonnil.
    + rewrite DecimalN.Unsigned.of_to, Z2N.id by lia. lia.
Qed.

Lemma Itoa_nonempty (i : Z) : (0 < String.length (Itoa i))%nat.
Proof.
  unfold Itoa. case_bool_decide; [simpl; lia|].
  pose proof (to_uint_nonnil (Z.to_N i)) as Hnil.
  destruct (N.to_uint (Z.to_N i)); [done|..]; simpl; lia.
Qed.

End StrconvFacts.

(** * Facts about the attributes of text boxes *)
Section TextBoxAttrFacts.
Import TextBox Strconv.

Lemma Attr_SetAttr_eq name value attrs :
  Attr name (SetAttr name value attrs) = value.
Proof. unfold Attr, SetAttr. by rewrite lookup_insert_eq. Qed.

Lemma Attr_SetAttr_ne name value name' attrs :
  name ≠ name' → Attr name' (SetAttr name value attrs) = Attr name' attrs.
Proof. intros. unfold Attr, SetAttr. by rewrite lookup_insert_ne. Qed.

(** X5.  [ReadOnly] after [SetReadOnly] returns what was set; [SetReadOnly]
    leaves what [MaxLength] returns and [SetMaxLength] leaves what
    [ReadOnly] returns. *)
Theorem ReadOnly_SetReadOnly (readOnly : bool) (n : Z)
    (attrs : gmap string string) :
  ReadOnly (SetReadOnly readOnly attrs) = readOnly ∧
  MaxLength (SetReadOnly readOnly attrs) = MaxLength attrs ∧
  ReadOnly (SetMaxLength n attrs) = ReadOnly attrs.
Proof.
  unfold ReadOnly, MaxLength, SetReadOnly, SetMaxLength.
  split; [|split].
  - destruct readOnly; cbv iota; by rewrite Attr_SetAttr_eq.
  - destruct readOnly; cbv iota; by rewrite !Attr_SetAttr_ne.
  - destruct (bool_decide (n < 0)); by rewrite Attr_SetAttr_ne.
Qed.

(** X6.  [MaxLength] after [SetMaxLength] returns -1 for a negative length
    and the length itself otherwise; an attribute value that
    [strconv.Atoi] does not read as a number is answered with -1. *)
Theorem MaxLength_SetMaxLength (maxLength : Z) (attrs : gmap string string) :
  (maxLength ≤ maxInt)%Z →
  MaxLength (SetMaxLength maxLength attrs)
  = (if bool_decide (maxLength < 0) then -1 else maxLength) ∧
  (∀ value, Atoi value = None →
     MaxLength (SetAttr "maxlength" value attrs) = -1).
Proof.
  intros Hmax. split.
  - unfold MaxLength, SetMaxLength.
    destruct (bool_decide (maxLength < 0)) eqn:Hneg.
    + by rewrite Attr_SetAttr_eq.
    + apply bool_decide_eq_false_1 in Hneg. rewrite Attr_SetAttr_eq.
      rewrite bool_decide_eq_true_2 by apply Itoa_nonempty.
      rewrite Atoi_Itoa; [done|]. unfold minInt. lia.
  - intros value Hv. unfold MaxLength.
    rewrite Attr_SetAttr_eq, Hv. by case_bool_decide.
Qed.

(** A limit of 80 characters, the limit taken away, and a value that is
    not a number. *)
Lemma MaxLength_SetMaxLength_witness :
  MaxLength (SetMaxLength 80 ∅) = 80 ∧
  MaxLength (SetMaxLength (-1) (SetMaxLength 80 ∅)) = -1 ∧
  MaxLength (SetAttr "maxlength" "many" ∅) = -1.
Proof.
  split; [|split].
  - apply (proj1 (MaxLength_SetMaxLength 80 ∅ ltac:(by vm_compute))).
  - apply (proj1 (MaxLength_SetMaxLength (-1) (SetMaxLength 80 ∅)
                    ltac:(by vm_compute))).
  - apply (proj2 (MaxLength_SetMaxLength 80 ∅ ltac:(by vm_compute))).
    reflexivity.
Defined.

End TextBoxAttrFacts.

(** * More facts about switch buttons *)
Section SwitchButtonTextFacts.
Import SwitchButton.

(** X7.  [SetOnOff] and [SetState] of a switch button in either order give
    the same switch button; [On] and [Off] return the texts [SetOnOff] has
    set, and [SetState] leaves them; [SetOnOff] leaves the state and the
    classes of the two sub-buttons, and both leave the classes of the
    switch button itself. *)
Theorem SetOnOff_and_SetState_are_independent (on off : string) (st : bool)
    (c : switchButtonImpl) :
  SetOnOff on off (SetState st c) = SetState st (SetOnOff on off c) ∧
  On (SetOnOff on off c) = on ∧ Off (SetOnOff on off c) = off ∧
  On (SetState st c) = On c ∧ Off (SetState st c) = Off c ∧
  State (SetOnOff on off c) = State c ∧
  classes (onButton (SetOnOff on off c)) = classes (onButton c) ∧
  classes (offButton (SetOnOff on off c)) = classes (offButton c) ∧
  classes_ (SetOnOff on off c) = classes_ c ∧
  classes_ (SetState st c) = classes_ c.
Proof.
  repeat split; try done; unfold SetState, SetOnOff, On, Off; simpl;
    case_bool_decide; try done; by destruct st.
Qed.

End SwitchButtonTextFacts.

(** * Facts about the classes, the selection and the ownership of tab panels *)
Section TabStyleFacts.
Import TabPanel Style.
#[local] Open Scope Z_scope.

Lemma elem_of_AddClass (a b : string) l : a ∈ AddClass b l ↔ a = b ∨ a ∈ l.
Proof.
  unfold AddClass. case_bool_decide as H.
  - split; [by right|]. by intros [->|?].
  - rewrite elem_of_app, list_elem_of_singleton. tauto.
Qed.

Lemma elem_of_RemoveClass (a b : string) l : a ∈ RemoveClass b l ↔ a ≠ b ∧ a ∈ l.
Proof. unfold RemoveClass. by rewrite list_elem_of_filter. Qed.

Lemma Classes_Style_update t f s x :
  Classes x (Style_update t f s)
  = if decide (x = t) then f (Classes t s) else Classes x s.
Proof.
  unfold Classes, Style_update. cbn [classes].
  destruct (decide (x = t)) as [->|Hne].
  - by rewrite lookup_insert_eq.
  - by rewrite lookup_insert_ne.
Qed.

Lemma Classes_setParent c p s x : Classes x (setParent c p s) = Classes x s.
Proof. by destruct p. Qed.

Lemma classes_Clear l s :
  classes (foldr (λ c2 s, setParent c2 None s) s l) = classes s.
Proof. induction l as [|y l IH]; [done|]. cbn. exact IH. Qed.

Lemma Classes_Clear l s x :
  Classes x (foldr (λ c2 s, setParent c2 None s) s l) = Classes x s.
Proof. unfold Classes. by rewrite classes_Clear. Qed.



(** [SetSelected] with an index below the count, on a panel all of whose
    tabs but the one at the (possibly stale) selected index carry the class
    of the tabs that are not selected. *)
Lemma SetSelected_styled idx c s c' s' :
  NoDup (comps (tabBarImpl c)) →
  idx < CompsCount (panel c) →
  (∀ (j : nat) t, comps (tabBarImpl c) !! j = Some t →
     Z.of_nat j ≠ selected c → "gwu-TabBar-NotSelected" ∈ Classes t s) →
  SetSelected idx c s = Some (c', s') →
  tabs_styled c' s'.
Proof.
  intros Hnd Hidx Hns. unfold SetSelected.
  rewrite bool_decide_eq_false_2 by lia.
  set (o := if bool_decide (selected c >= 0) then _ else _).
  destruct o as [s1|] eqn:Ho; [|done]. cbn [mbind option_bind].
  assert (Hall : ∀ (j : nat) t, comps (tabBarImpl c) !! j = Some t →
            "gwu-TabBar-NotSelected" ∈ Classes t s1).
  { intros j t Hj. unfold o in Ho.
    destruct (bool_decide (selected c >= 0)) eqn:Hsel.
    - apply bool_decide_eq_true_1 in Hsel.
      destruct (CompAt (tabBarImpl c) (selected c)) as [t0|] eqn:Ht0; [|done].
      cbn [mbind option_bind] in Ho. injection Ho as <-.
      rewrite !Classes_Style_update.
      destruct (decide (t = t0)) as [->|Hne].
      + rewrite decide_True by done. apply elem_of_AddClass. by left.
      + apply (Hns j t Hj). intros Hjs.
        rewrite <- Hjs, CompAt_nat, Hj in Ht0. by injection Ht0.
    - apply bool_decide_eq_false_1 in Hsel. injection Ho as <-.
      apply (Hns j t Hj). lia. }
  cbn [selected tabBarImpl set_selected].
  destruct (bool_decide (idx >= 0)) eqn:Hge.
  - apply bool_decide_eq_true_1 in Hge.
    destruct (CompAt (tabBarImpl c) idx) as [t1|] eqn:Ht1; [|done].
    cbn [mbind option_bind]. intros [= <- <-].
    intros j t Hj. cbn [tabBarImpl set_selected selected] in *.
    rewrite !Classes_Style_update.
    destruct (decide (Z.of_nat j = idx)) as [Hji|Hji].
    + rewrite <- Hji, CompAt_nat, Hj in Ht1. injection Ht1 as <-.
      rewrite !decide_True by done. split.
      * rewrite elem_of_AddClass, elem_of_RemoveClass. split; [|done].
        intros [?|[? _]]; done.
      * intros _. apply elem_of_AddClass. by left.
    + assert (t ≠ t1) as Hne.
      { intros ->. apply CompAt_Some in Ht1 as (i & -> & Hi).
        apply Hji. f_equal. by eapply NoDup_lookup. }
      rewrite !decide_False by done. split; [|done].
      split; [done|]. intros _. by eapply Hall.
  - apply bool_decide_eq_false_1 in Hge. intros [= <- <-].
    intros j t Hj. cbn [tabBarImpl set_selected selected] in *.
    split; [|lia]. split; [lia|]. intros _. by eapply Hall.
Qed.

Lemma SetSelected_same_classes idx c s c' s' :
  SetSelected idx c s = Some (c', s') → same_classes_but_selection s s'.
Proof.
  assert (Hupd : ∀ t s0 x class, class ≠ "gwu-TabBar-Selected" → class ≠ "gwu-TabBar-NotSelected" →
    (class ∈ Classes x (Style_update t (AddClass "gwu-TabBar-NotSelected")
                          (Style_update t (RemoveClass "gwu-TabBar-Selected") s0))
     ↔ class ∈ Classes x s0) ∧
    (class ∈ Classes x (Style_update t (AddClass "gwu-TabBar-Selected")
                          (Style_update t (RemoveClass "gwu-TabBar-NotSelected") s0))
     ↔ class ∈ Classes x s0)).
  { intros t s0 x class H1 H2. rewrite !Classes_Style_update.
    destruct (decide (x = t)) as [->|Hne].
    - rewrite !decide_True by done.
      rewrite !elem_of_AddClass, !elem_of_RemoveClass. tauto.
    - done. }
  unfold SetSelected. case_bool_decide as H0; [by intros [= <- <-]|].
  set (o := if bool_decide (selected c >= 0) then _ else _).
  destruct o as [s1|] eqn:Ho; [|done]. cbn [mbind option_bind].
  assert (H1 : same_classes_but_selection s s1).
  { unfold o in Ho. destruct (bool_decide (selected c >= 0)).
    - destruct (CompAt (tabBarImpl c) (selected c)) as [t0|]; [|done].
      cbn [mbind option_bind] in Ho. injection Ho as <-.
      intros x class Ha Hb. exact (proj1 (Hupd t0 s x class Ha Hb)).
    - injection Ho as <-. by intros x class ? ?. }
  cbn [selected tabBarImpl set_selected]. clear Ho. clearbody o.
  destruct (bool_decide (idx >= 0)).
  - destruct (CompAt (tabBarImpl c) idx) as [t1|]; [|done].
    cbn [mbind option_bind]. intros [= <- <-] x class Ha Hb.
    rewrite <- (H1 x class Ha Hb). exact (proj2 (Hupd t1 s1 x class Ha Hb)).
  - by intros [= <- <-].
Qed.


Lemma lookup_delete_old (l : list Z) (i j : nat) x :
  delete i l !! j = Some x →
  ∃ o : nat, l !! o = Some x ∧ o ≠ i ∧
             o = (if decide (j < i)%nat then j else S j).
Proof.
  intros Hj. destruct (decide (j < i)%nat) as [Hlt|Hge].
  - exists j. rewrite list_lookup_delete_lt in Hj by done. split; [done|]. lia.
  - exists (S j). rewrite list_lookup_delete_ge in Hj by lia. split; [done|]. lia.
Qed.

Lemma Add_styled tab content c s c' s' :
  wf c s → tabs_styled c s → Add tab content c s = Some (c', s') →
  tabs_styled c' s'.
Proof.
  intros Hwf Hst. unfold Add, panelImpl_Add.
  destruct (parent s !! tab) eqn:Htab; [done|]. cbn [mbind option_bind].
  rewrite parent_setParent.
  destruct (decide (content = tab)) as [->|Hne]; [done|].
  destruct (parent s !! content) eqn:Hcontent; [done|]. cbn [mbind option_bind].
  pose proof (wf_added c s tab content (AddClass "gwu-TabBar-NotSelected") (selected c)
                Hwf Htab Hcontent Hne) as Hadd.
  pose proof (wf_selected _ _ Hwf) as Hsel.
  set (c1 := mkTabPanel _ _ _ _) in *. set (s1 := Style_update _ _ _) in *.
  assert (Hst1 : tabs_styled c1 s1).
  { intros j t Hj. cbn [c1 tabBarImpl comps selected] in *.
    unfold s1. rewrite Classes_Style_update, !Classes_setParent.
    apply lookup_app_Some in Hj as [Hj|[Hlen Hj]].
    - rewrite decide_False; [by apply Hst|].
      intros ->. apply list_elem_of_lookup_2 in Hj.
      by rewrite (wf_tabs_parent _ _ Hwf _ Hj) in Htab.
    - destruct (j - length (comps (tabBarImpl c)))%nat eqn:Hd; [|done].
      injection Hj as <-. rewrite decide_True by done.
      rewrite (wf_length _ _ Hwf) in Hlen, Hd. unfold CompsCount in Hsel.
      split; [|lia]. split; [lia|]. intros _. apply elem_of_AddClass. by left. }
  case_bool_decide as H1; [|by intros [= <- <-]].
  apply SetSelected_styled.
  - apply (wf_tabs_nodup c1 s1). apply Hadd. lia.
  - rewrite H1. lia.
  - intros j t Hj Hjs. by apply (Hst1 j t Hj).
Qed.

Lemma Remove_content_styled n c s c2 (i : nat) b c' s' :
  wf c s → tabs_styled c s → comps (panel c) !! i = Some c2 →
  Remove_fuel (S n) c2 c s = Some (b, (c', s')) →
  tabs_styled c' s'.
Proof.
  intros Hwf Hst Hi. destruct (wf_tab_at _ _ _ _ Hwf Hi) as [t Ht].
  rewrite (Remove_fuel_content n c s c2 i t
             (wf_comps_nodup _ _ Hwf) (wf_tabs_nodup _ _ Hwf) Hi Ht).
  pose proof (wf_removed c s c2 t i) as Hrem.
  pose proof (wf_selected _ _ Hwf) as Hsel.
  assert (Hlt : Z.of_nat i < CompsCount (panel c)).
  { unfold CompsCount. apply lookup_lt_Some in Hi. lia. }
  set (c1 := mkTabPanel _ _ _ _) in *. set (s1 := setParent c2 None _) in *.
  assert (Hcount : CompsCount (panel c1) = CompsCount (panel c) - 1).
  { unfold CompsCount, c1 in *. cbn [panel comps].
    rewrite length_delete by by eexists. lia. }
  assert (Hold : ∀ (j : nat) x, comps (tabBarImpl c1) !! j = Some x →
            ∃ o : nat, comps (tabBarImpl c) !! o = Some x ∧ o ≠ i ∧
                       o = (if decide (j < i)%nat then j else S j) ∧
                       Classes x s1 = Classes x s).
  { intros j x Hj. cbn [c1 tabBarImpl comps] in Hj.
    destruct (lookup_delete_old _ _ _ _ Hj) as (o & Ho & Hoi & Hoj).
    exists o. split; [done|]. split; [done|]. split; [done|].
    unfold s1. by rewrite !Classes_setParent. }
  case_bool_decide as H1.
  - cbn [mbind option_bind]. intros [= <- <- <-].
    intros j x Hj. cbn [set_selected tabBarImpl selected] in *.
    destruct (Hold j x Hj) as (o & Ho & Hoi & Hoj & ->).
    destruct (Hst o x Ho) as [Hns Hs].
    destruct (decide (j < i)%nat); subst o.
    + split; [|lia]. rewrite Hns. split; lia.
    + split; [rewrite Hns; split; lia|]. intros ?. apply Hs. lia.
  - case_bool_decide as H2.
    + case_bool_decide as H3.
      * destruct (SetSelected (Z.of_nat i) c1 s1) as [[c3 s3]|] eqn:E; [|done].
        cbn [mbind option_bind]. intros [= <- <- <-].
        eapply SetSelected_styled; [| | |exact E].
        -- apply (wf_tabs_nodup _ s1 (Hrem (selected c - 1) Hwf Hi Ht ltac:(lia))).
        -- done.
        -- intros j x Hj Hjs. cbn [c1 selected] in Hjs.
           destruct (Hold j x Hj) as (o & Ho & Hoi & Hoj & ->).
           apply (proj1 (Hst o x Ho)). lia.
      * assert (Hlen1 : CompsCount (tabBarImpl c1) = CompsCount (panel c1)).
        { unfold CompsCount, c1. cbn [panel tabBarImpl comps].
          rewrite !length_delete by by eexists. by rewrite (wf_length _ _ Hwf). }
        assert (Hpanic : ∀ idx, idx < CompsCount (panel c1) →
                  SetSelected idx c1 s1 = None).
        { intros idx Hidx. apply SetSelected_panics; [done|cbn; lia|].
          apply CompAt_outside. cbn [selected c1]. lia. }
        rewrite !Hpanic by lia. by destruct (bool_decide _).
    + cbn [mbind option_bind]. intros [= <- <- <-].
      intros j x Hj. cbn [c1 selected].
      destruct (Hold j x Hj) as (o & Ho & Hoi & Hoj & ->).
      destruct (Hst o x Ho) as [Hns Hs].
      destruct (decide (j < i)%nat); subst o.
      * split; [done|]. done.
      * split; [rewrite Hns; split; lia|]. lia.
Qed.

Lemma Remove_styled c s c2 b c' s' :
  wf c s → tabs_styled c s → Remove c2 c s = Some (b, (c', s')) →
  tabs_styled c' s'.
Proof.
  intros Hwf Hst. unfold Remove.
  destruct (decide (c2 ∈ comps (panel c))) as [Hin|Hnin].
  - apply list_elem_of_lookup in Hin as [i Hi]. by eapply Remove_content_styled.
  - destruct (decide (c2 ∈ comps (tabBarImpl c))) as [Hint|Hnint].
    + apply list_elem_of_lookup in Hint as [i Hi].
      rewrite (Remove_fuel_tab 1 _ _ _ i Hnin (wf_tabs_nodup _ _ Hwf) Hi).
      destruct (comps (panel c) !! i) as [c3|] eqn:Hc3; [|done].
      cbn [mbind option_bind]. by eapply Remove_content_styled.
    + rewrite (Remove_fuel_absent 1 _ _ _ Hnin Hnint). by intros [= <- <- <-].
Qed.

Lemma do_call_styled k c s c' s' :
  wf c s → tabs_styled c s → do_call k c s = Some (c', s') →
  tabs_styled c' s'.
Proof.
  intros Hwf Hst.
  assert (Hsel : ∀ idx, SetSelected idx c s = Some (c', s') → tabs_styled c' s').
  { intros idx E.
    destruct (decide (idx < CompsCount (panel c))) as [Hlt|Hge].
    - eapply SetSelected_styled; [by eapply wf_tabs_nodup|done| |done].
      intros j t Hj Hjs. by apply (Hst j t Hj).
    - rewrite SetSelected_noop in E by lia. by injection E as <- <-. }
  destruct k as [tab content|c2|c2| |idx|content|pl]; cbn [do_call].
  - by apply Add_styled.
  - destruct (Remove c2 c s) as [[b [c1 s1]]|] eqn:E; [|done].
    intros [= <- <-]. by eapply Remove_styled.
  - destruct (decide (c2 ∈ comps (tabBarImpl c))) as [Hint|Hnint].
    + rewrite (tabBarImpl_Remove_tab _ _ _ Hwf Hint).
      destruct (Remove c2 c s) as [[b [c1 s1]]|] eqn:E; [|done].
      intros [= <- <-]. by eapply Remove_styled.
    + rewrite (tabBarImpl_Remove_absent _ _ _ Hnint). by intros [= <- <-].
  - intros E. destruct (Clear_wf _ _ _ _ Hwf E) as (_ & Ht & _).
    intros j t Hj. by rewrite Ht in Hj.
  - apply Hsel.
  - apply Hsel.
  - intros [= <- <-]. intros j t Hj. cbn [tabBarImpl selected] in *.
    rewrite !Classes_Style_update.
    rewrite !decide_False; [by apply Hst|..];
      intros ->; eapply wf_tabBar_not_tab; try done;
      by eapply list_elem_of_lookup_2.
Qed.

Lemma do_call_wf k c s c' s' :
  wf c s → do_call k c s = Some (c', s') → wf c' s'.
Proof.
  intros Hwf E.
  eapply (do_call_refines k (zip (comps (tabBarImpl c)) (comps (panel c))));
    [exact Hwf| |exact E].
  pose proof (wf_length _ _ Hwf) as Hlen.
  split; [rewrite fst_zip|rewrite snd_zip]; try done; lia.
Qed.

Lemma do_calls_styled ks c s c' s' :
  wf c s → tabs_styled c s → do_calls ks c s = Some (c', s') →
  wf c' s' ∧ tabs_styled c' s'.
Proof.
  revert c s. induction ks as [|k ks IH]; intros c s Hwf Hst.
  - by intros [= <- <-].
  - cbn [do_calls].
    destruct (do_call k c s) as [[c1 s1]|] eqn:E; [|done].
    cbn [mbind option_bind].
    apply IH; [by eapply do_call_wf|by eapply do_call_styled].
Qed.


Lemma SetSelected_classes_frame idx c s c' s' x :
  SetSelected idx c s = Some (c', s') → x ∉ comps (tabBarImpl c) →
  Classes x s' = Classes x s.
Proof.
  intros E Hx.
  assert (Hupd : ∀ i t f g s0, CompAt (tabBarImpl c) i = Some t →
            Classes x (Style_update t f (Style_update t g s0)) = Classes x s0).
  { intros i t f g s0 Ht. rewrite !Classes_Style_update.
    rewrite !decide_False; [done|..]; intros ->;
      apply CompAt_Some in Ht as (k & _ & Hk); apply Hx;
      by eapply list_elem_of_lookup_2. }
  revert E. unfold SetSelected. case_bool_decide as H0; [by intros [= <- <-]|].
  set (o := if bool_decide (selected c >= 0) then _ else _).
  destruct o as [s1|] eqn:Ho; [|done]. cbn [mbind option_bind].
  assert (H1 : Classes x s1 = Classes x s).
  { unfold o in Ho. destruct (bool_decide (selected c >= 0)).
    - destruct (CompAt (tabBarImpl c) (selected c)) as [t0|] eqn:Ht0; [|done].
      cbn [mbind option_bind] in Ho. injection Ho as <-. by eapply Hupd.
    - by injection Ho as <-. }
  cbn [selected tabBarImpl set_selected]. clear Ho. clearbody o.
  destruct (bool_decide (idx >= 0)).
  - destruct (CompAt (tabBarImpl c) idx) as [t1|] eqn:Ht1; [|done].
    cbn [mbind option_bind]. intros [= <- <-].
    rewrite <- H1. by eapply Hupd.
  - by intros [= <- <-].
Qed.

Lemma same_classes_refl s : same_classes_but_selection s s.
Proof. by intros x class ? ?. Qed.

Lemma same_classes_trans s1 s2 s3 :
  same_classes_but_selection s1 s2 → same_classes_but_selection s2 s3 →
  same_classes_but_selection s1 s3.
Proof.
  intros H1 H2 x class Ha Hb.
  destruct (H1 x class Ha Hb), (H2 x class Ha Hb). split; auto.
Qed.

Lemma same_classes_eq s s' :
  (∀ x, Classes x s' = Classes x s) → same_classes_but_selection s s'.
Proof. intros H x class ? ?. by rewrite H. Qed.

Lemma SetSelected_kept idx c s c' s' :
  SetSelected idx c s = Some (c', s') → kept c s c' s'.
Proof.
  intros E. destruct (SetSelected_frame _ _ _ _ _ E) as (Hp & Hb & Hpl & _).
  split; [by eapply SetSelected_same_classes|]. by rewrite Hp, Hb, Hpl.
Qed.

Lemma kept_trans c s c1 s1 c' s' :
  kept c s c1 s1 → kept c1 s1 c' s' → kept c s c' s'.
Proof.
  intros (H1 & H2 & H3 & H4) (H1' & H2' & H3' & H4').
  split; [by eapply same_classes_trans|]. repeat split; congruence.
Qed.

Lemma panelImpl_Remove_frame c2 p s :
  id (panelImpl_Remove c2 p s).2.1 = id p ∧
  ∀ x, Classes x (panelImpl_Remove c2 p s).2.2 = Classes x s.
Proof.
  unfold panelImpl_Remove. case_bool_decide; cbn [fst snd id]; split; try done.
Qed.

Lemma Remove_fuel_kept n c2 c s b c' s' :
  Remove_fuel n c2 c s = Some (b, (c', s')) → kept c s c' s'.
Proof.
  revert c2. induction n as [|n IH]; intros c2; [done|]. cbn [Remove_fuel].
  case_bool_decide as H0.
  - case_bool_decide as H1.
    + intros [= <- <- <-]. split; [apply same_classes_refl|done].
    + destruct (CompAt (panel c) _) as [c3|]; [|done].
      cbn [mbind option_bind]. apply IH.
  - destruct (CompAt (tabBarImpl c) _) as [t|]; [|done].
    cbn [mbind option_bind].
    pose proof (panelImpl_Remove_frame t (tabBarImpl c) s) as [Hid1 Hc1].
    destruct (panelImpl_Remove t (tabBarImpl c) s) as [b1 [tb s1]].
    pose proof (panelImpl_Remove_frame c2 (panel c) s1) as [Hid2 Hc2].
    destruct (panelImpl_Remove c2 (panel c) s1) as [b2 [p s2]].
    cbn [fst snd] in *.
    set (c1 := mkTabPanel _ _ _ _).
    assert (Hk : kept c s c1 s2).
    { split; [|done]. apply same_classes_eq. intros x. by rewrite Hc2, Hc1. }
    set (o := if bool_decide (_ < selected c1) then _ else _).
    destruct o as [[c3 s3]|] eqn:Ho; [|done].
    cbn [mbind option_bind]. intros [= <- <- <-].
    apply (kept_trans _ _ _ _ _ _ Hk). unfold o in Ho. clear o.
    repeat case_bool_decide; try (by eapply SetSelected_kept);
      injection Ho as <- <-; (split; [apply same_classes_refl|done]).
Qed.

Lemma do_call_kept k c s c' s' :
  (∀ p, k ≠ CallSetTabBarPlacement p) →
  do_call k c s = Some (c', s') → kept c s c' s'.
Proof.
  intros Hk.
  destruct k as [tab content|c2|c2| |idx|content|pl]; cbn [do_call].
  - unfold Add, panelImpl_Add.
    destruct (parent s !! tab); [done|]. cbn [mbind option_bind].
    destruct (parent _ !! content); [done|]. cbn [mbind option_bind].
    set (c1 := mkTabPanel _ _ _ _). set (s1 := Style_update _ _ _).
    assert (Hk1 : kept c s c1 s1).
    { split; [|done]. intros x class ? ?. unfold s1.
      rewrite Classes_Style_update, !Classes_setParent.
      destruct (decide (x = tab)) as [->|]; [|done].
      rewrite elem_of_AddClass. naive_solver. }
    case_bool_decide.
    + intros E. eapply kept_trans; [done|]. by eapply SetSelected_kept.
    + by intros [= <- <-].
  - destruct (Remove c2 c s) as [[b [c1 s1]]|] eqn:E; [|done].
    intros [= <- <-]. by eapply Remove_fuel_kept.
  - unfold tabBarImpl_Remove. case_bool_decide.
    { intros [= <- <-]. split; [apply same_classes_refl|done]. }
    assert (Hown : ∀ o, (let '(b, (tb, s1)) := panelImpl_Remove c2 (tabBarImpl c) s in
                Some (b, (mkTabPanel (panel c) tb (tabBarPlacement c) (selected c), s1)))
              = Some o → kept c s o.2.1 o.2.2).
    { intros o.
      pose proof (panelImpl_Remove_frame c2 (tabBarImpl c) s) as [Hid1 Hc1].
      destruct (panelImpl_Remove c2 (tabBarImpl c) s) as [b1 [tb s1]].
      intros [= <-]. cbn [fst snd] in *. split; [|done].
      by apply same_classes_eq. }
    assert (Hrem : ∀ o, (c3 ← CompAt (panel c) (CompIdx (tabBarImpl c) c2);
                         Remove c3 c s) = Some o → kept c s o.2.1 o.2.2).
    { intros [b [c1 s1]]. destruct (CompAt (panel c) _) as [c3|]; [|done].
      cbn [mbind option_bind fst snd]. apply Remove_fuel_kept. }
    destruct (parent s !! id (tabBarImpl c)) as [p|].
    + case_bool_decide.
      * destruct (_ ≫= _) as [[b [c1 s1]]|] eqn:E; [|done]. intros [= <- <-].
        by apply (Hrem _ eq_refl).
      * destruct (let '(_, _) := _ in _) as [[b [c1 s1]]|] eqn:E; [|done].
        intros [= <- <-]. by apply (Hown _ eq_refl).
    + destruct (let '(_, _) := _ in _) as [[b [c1 s1]]|] eqn:E; [|done].
      intros [= <- <-]. by apply (Hown _ eq_refl).
  - unfold Clear, panelImpl_Clear. intros E.
    eapply kept_trans; [|by eapply SetSelected_kept].
    split; [|done]. apply same_classes_eq. intros x. by rewrite !Classes_Clear.
  - apply SetSelected_kept.
  - apply SetSelected_kept.
  - by destruct (Hk pl).
Qed.


Lemma run_from_styled s0 ks c s :
  run_from s0 ks = Some (c, s) → wf c s ∧ tabs_styled c s.
Proof.
  unfold run_from. pose proof (NewTabPanel_wf s0) as (Hwf & Ht & _).
  destruct (NewTabPanel s0) as [c0 s1]. simpl in *.
  apply do_calls_styled; [done|]. intros j t Hj. by rewrite Ht in Hj.
Qed.

Lemma placement_class_inj p q : placement_class p = placement_class q → p = q.
Proof. by destruct p, q. Qed.

Lemma placement_class_other p :
  placement_class p ≠ "gwu-TabBar-Selected" ∧ placement_class p ≠ "gwu-TabBar-NotSelected" ∧
  placement_class p ≠ "gwu-TabBar" ∧ placement_class p ≠ "gwu-TabPanel".
Proof. by destruct p. Qed.

Lemma own_classes_kept c s c' s' :
  kept c s c' s' → own_classes c s → own_classes c' s'.
Proof.
  intros (Hsame & Hid1 & Hid2 & Hpl) (Hp & Hb & Hq).
  unfold own_classes, placement_styled. rewrite Hid1, Hid2, Hpl.
  split; [|split].
  - intros p. destruct (placement_class_other p) as (H1 & H2 & _).
    rewrite (Hsame _ _ H1 H2). apply Hp.
  - by apply Hsame.
  - by apply Hsame.
Qed.

Lemma own_classes_SetTabBarPlacement p c s :
  id (tabBarImpl c) ≠ id (panel c) → own_classes c s →
  own_classes (SetTabBarPlacement p c s).1 (SetTabBarPlacement p c s).2.
Proof.
  intros Hne (Hp & Hb & Hq). unfold SetTabBarPlacement, own_classes.
  cbn [fst snd tabBarImpl panel tabBarPlacement].
  unfold placement_styled. cbn [tabBarImpl tabBarPlacement].
  rewrite !Classes_Style_update. rewrite !decide_True by done.
  rewrite !(decide_False (P := id (panel c) = id (tabBarImpl c))) by done.
  split; [|split]; [|  |done].
  - intros q. pose proof (Hp q) as Hpq. unfold placement_styled in Hpq.
    rewrite elem_of_AddClass, elem_of_RemoveClass, Hpq. split.
    + intros [H|[H ->]]; [by apply placement_class_inj|done].
    + intros ->. by left.
  - rewrite elem_of_AddClass, elem_of_RemoveClass. right.
    destruct (placement_class_other (tabBarPlacement c)) as (_ & _ & ? & _).
    done.
Qed.

Lemma do_calls_own_classes ks c s c' s' :
  wf c s → own_classes c s → do_calls ks c s = Some (c', s') →
  own_classes c' s'.
Proof.
  revert c s. induction ks as [|k ks IH]; intros c s Hwf Hown.
  - by intros [= <- <-].
  - cbn [do_calls].
    destruct (do_call k c s) as [[c1 s1]|] eqn:E; [|done].
    cbn [mbind option_bind].
    apply IH; [by eapply do_call_wf|].
    destruct k as [tab content|c2|c2| |idx|content|pl];
      try (eapply own_classes_kept; [|done];
           eapply do_call_kept; [|done]; done).
    cbn [do_call] in E. apply (inj Some) in E.
    pose proof (own_classes_SetTabBarPlacement pl c s (wf_ids _ _ Hwf) Hown)
      as Hset.
    by rewrite E in Hset.
Qed.

Lemma NewTabPanel_own_classes s0 :
  (∀ x, nextId s0 ≤ x → classes s0 !! x = None) →
  own_classes (NewTabPanel s0).1 (NewTabPanel s0).2.
Proof.
  intros Hfresh. unfold NewTabPanel, SetTabBarPlacement, own_classes.
  cbn [fst snd tabBarImpl panel tabBarPlacement id].
  unfold placement_styled. cbn [tabBarImpl tabBarPlacement id].
  rewrite !Classes_Style_update, !Classes_setParent, !Classes_Style_update.
  repeat first [rewrite decide_True by done | rewrite decide_False by lia].
  assert (Hnil : ∀ n, Classes (nextId s0 + 1) (mkStore (parent s0) (classes s0) n) = []).
  { intros n. unfold Classes. cbn [classes]. by rewrite Hfresh by lia. }
  rewrite !Hnil.
  split; [|split].
  - intros q. rewrite !elem_of_AddClass, elem_of_RemoveClass, elem_of_AddClass.
    split.
    + intros [H|[H [H'|H']]].
      * by apply (placement_class_inj q TB_PLACEMENT_TOP).
      * by destruct q.
      * by apply elem_of_nil in H'.
    + intros ->. by left.
  - rewrite !elem_of_AddClass, elem_of_RemoveClass, elem_of_AddClass.
    right. split; [done|]. by left.
  - apply elem_of_AddClass. by left.
Qed.


(** X8.  After any calls on a new tab panel that have returned, the tab at
    the selected index carries the class gwu-TabBar-Selected, and it is the
    only tab of the tab bar without the class gwu-TabBar-NotSelected. *)
Theorem tab_classes_follow_selection (s0 : store) (ks : list call)
    (c : tabPanelImpl) (s : store) :
  run_from s0 ks = Some (c, s) →
  ∀ (j : nat) t, comps (tabBarImpl c) !! j = Some t →
    ("gwu-TabBar-NotSelected" ∈ Classes t s ↔ Z.of_nat j ≠ Selected c) ∧
    (Z.of_nat j = Selected c → "gwu-TabBar-Selected" ∈ Classes t s).
Proof. intros Hrun. by destruct (run_from_styled _ _ _ _ Hrun) as [_ Hst]. Qed.

(** The three pairs, the first one selected. *)
Lemma tab_classes_follow_selection_witness :
  "gwu-TabBar-Selected" ∈ Classes 1 three_pairs.2 ∧
  ("gwu-TabBar-NotSelected" ∉ Classes 1 three_pairs.2) ∧
  "gwu-TabBar-NotSelected" ∈ Classes 3 three_pairs.2.
Proof.
  pose proof (tab_classes_follow_selection empty_store three_tabs
                three_pairs.1 three_pairs.2 eq_refl) as H.
  split; [|split].
  - apply (proj2 (H 0%nat 1 eq_refl)). reflexivity.
  - intros Hin. by apply (proj1 (proj1 (H 0%nat 1 eq_refl)) Hin).
  - apply (proj2 (proj1 (H 1%nat 3 eq_refl))). by vm_compute.
Defined.

(** X9.  A tab panel created in a store whose id counter lies above every
    component with classes: after any calls that have returned, the tab bar
    carries the class of its current placement and of no other placement,
    and the tab bar and the panel still carry gwu-TabBar and
    gwu-TabPanel. *)
Theorem tab_bar_carries_its_placement_class (s0 : store) (ks : list call)
    (c : tabPanelImpl) (s : store) :
  (∀ x, nextId s0 ≤ x → classes s0 !! x = None) →
  run_from s0 ks = Some (c, s) →
  (∀ p, placement_class p ∈ Classes (id (tabBarImpl c)) s ↔
        p = tabBarPlacement c) ∧
  "gwu-TabBar" ∈ Classes (id (tabBarImpl c)) s ∧
  "gwu-TabPanel" ∈ Classes (id (panel c)) s.
Proof.
  intros Hfresh. unfold run_from.
  pose proof (NewTabPanel_wf s0) as (Hwf & _).
  pose proof (NewTabPanel_own_classes s0 Hfresh) as Hown.
  destruct (NewTabPanel s0) as [c0 s1]. simpl in *.
  intros Hrun. by apply (do_calls_own_classes _ _ _ _ _ Hwf Hown Hrun).
Qed.

(** The tab bar moved from the top to the left. *)
Lemma tab_bar_carries_its_placement_class_witness :
  "gwu-TabBar-Left" ∈ Classes (id (tabBarImpl placed_left.1)) placed_left.2 ∧
  "gwu-TabBar-Top" ∉ Classes (id (tabBarImpl placed_left.1)) placed_left.2.
Proof.
  destruct (tab_bar_carries_its_placement_class empty_store
              (three_tabs ++ [CallSetTabBarPlacement TB_PLACEMENT_LEFT])
              placed_left.1 placed_left.2) as (H & _).
  - intros x _. reflexivity.
  - reflexivity.
  - split.
    + apply (proj2 (H TB_PLACEMENT_LEFT)). reflexivity.
    + intros Hin. by pose proof (proj1 (H TB_PLACEMENT_TOP) Hin).
Defined.

(** X10.  [Clear] panics when a tab is selected (the selected index is not
    negative): [SetSelected] looks the selected tab up in the tab bar that
    has just been emptied.  With no tab selected it returns: the two
    sequences are empty, [Selected] is -1, the former tabs and contents have
    no parent, and no class has changed. *)
Theorem Clear_returns_iff_no_tab_is_selected (c : tabPanelImpl) (s : store) :
  (0 ≤ Selected c → Clear c s = None) ∧
  (Selected c < 0 →
     ∃ c' s', Clear c s = Some (c', s') ∧
       comps (panel c') = [] ∧ comps (tabBarImpl c') = [] ∧
       Selected c' = -1 ∧ classes s' = classes s ∧
       ∀ x, parent s' !! x
            = if decide (x ∈ comps (panel c) ∨ x ∈ comps (tabBarImpl c))
              then None else parent s !! x).
Proof.
  unfold Clear, panelImpl_Clear, SetSelected, Selected, CompsCount, CompAt.
  cbn [panel tabBarImpl comps selected set_selected length].
  rewrite (bool_decide_eq_false_2 (-1 >= _)) by (cbn; lia).
  rewrite (bool_decide_eq_false_2 (-1 >= 0)) by lia.
  split; intros Hsel.
  - rewrite (bool_decide_eq_true_2 (selected c >= 0)) by lia.
    rewrite (bool_decide_eq_false_2 (selected c < 0)) by lia.
    by rewrite lookup_nil.
  - rewrite (bool_decide_eq_false_2 (selected c >= 0)) by lia.
    cbn [mbind option_bind]. eexists _, _. split; [done|].
    cbn [panel tabBarImpl comps selected].
    repeat split; try done.
    + by rewrite !classes_Clear.
    + intros x. rewrite !parent_Clear.
      destruct (decide (x ∈ comps (panel c))), (decide (x ∈ comps (tabBarImpl c)));
        [rewrite decide_True by tauto..|rewrite decide_False by tauto]; done.
Qed.

(** [Clear] of the panel with one pair, and of the new panel. *)
Lemma Clear_returns_iff_no_tab_is_selected_witness :
  Clear one_pair.1 one_pair.2 = None ∧
  ∃ c' s', Clear new_panel.1 new_panel.2 = Some (c', s') ∧ Selected c' = -1.
Proof.
  split.
  - apply (proj1 (Clear_returns_iff_no_tab_is_selected one_pair.1 one_pair.2)).
    by vm_compute.
  - destruct (proj2 (Clear_returns_iff_no_tab_is_selected
                       new_panel.1 new_panel.2))
      as (c' & s' & E & _ & _ & Hsel & _); [by vm_compute|].
    by exists c', s'.
Defined.

(** X11.  After any calls that have returned, an [Add] that returns has put
    the tab and the content at the end of the two sequences, owned by the
    tab bar and by the panel; the pair added to an empty panel is selected
    (index 0), otherwise [Selected] is as before; no other parent and no
    class of a component outside the tab bar has changed. *)
Theorem Add_appends_and_selects_the_first (s0 : store) (ks : list call)
    (c : tabPanelImpl) (s : store) (tab content : ID)
    (c' : tabPanelImpl) (s' : store) :
  run_from s0 ks = Some (c, s) →
  Add tab content c s = Some (c', s') →
  comps (tabBarImpl c') = (comps (tabBarImpl c) ++ [tab])%list ∧
  comps (panel c') = (comps (panel c) ++ [content])%list ∧
  Selected c' = (if decide (CompsCount (panel c) = 0) then 0 else Selected c) ∧
  parent s' !! tab = Some (id (tabBarImpl c)) ∧
  parent s' !! content = Some (id (panel c)) ∧
  (∀ x, x ≠ tab → x ≠ content → parent s' !! x = parent s !! x) ∧
  (∀ x, x ∉ comps (tabBarImpl c') → Classes x s' = Classes x s).
Proof.
  intros Hrun E. destruct (run_from_refines _ _ _ _ Hrun) as [Hwf _].
  destruct (Add_wf _ _ _ _ _ _ Hwf E) as (Hwf' & Ht & Hc).
  split; [done|]. split; [done|].
  revert E. unfold Add, panelImpl_Add.
  destruct (parent s !! tab) eqn:Htab; [done|]. cbn [mbind option_bind].
  rewrite parent_setParent.
  destruct (decide (content = tab)) as [->|Hne]; [done|].
  destruct (parent s !! content) eqn:Hcontent; [done|]. cbn [mbind option_bind].
  pose proof (wf_selected _ _ Hwf) as Hsel.
  set (c1 := mkTabPanel _ _ _ _) in *. set (s1 := Style_update _ _ _) in *.
  assert (Hcount : CompsCount (panel c1) = CompsCount (panel c) + 1).
  { unfold CompsCount, c1. cbn [panel comps]. rewrite length_app. cbn. lia. }
  assert (Hparent : ∀ x, parent s1 !! x
            = if decide (x = content) then Some (id (panel c))
              else if decide (x = tab) then Some (id (tabBarImpl c))
              else parent s !! x).
  { intros x. unfold s1. cbn [Style_update parent]. by rewrite !parent_setParent. }
  assert (Hclasses : ∀ x, x ≠ tab → Classes x s1 = Classes x s).
  { intros x Hx. unfold s1.
    by rewrite Classes_Style_update, !Classes_setParent, decide_False. }
  assert (Hends : ∀ s2, parent s2 = parent s1 →
            (∀ x, x ∉ comps (tabBarImpl c') → Classes x s2 = Classes x s1) →
            parent s2 !! tab = Some (id (tabBarImpl c)) ∧
            parent s2 !! content = Some (id (panel c)) ∧
            (∀ x, x ≠ tab → x ≠ content → parent s2 !! x = parent s !! x) ∧
            (∀ x, x ∉ comps (tabBarImpl c') → Classes x s2 = Classes x s)).
  { intros s2 Hp Hcl. rewrite Hp, !Hparent.
    rewrite decide_False by done. rewrite !decide_True by done.
    split; [done|]. split; [done|]. split.
    - intros x H1 H2. by rewrite Hparent, !decide_False.
    - intros x Hx. rewrite Hcl by done. apply Hclasses.
      intros ->. apply Hx. rewrite Ht. apply elem_of_app. right.
      by apply list_elem_of_singleton. }
  case_bool_decide as H1.
  - intros E.
    destruct (SetSelected_frame _ _ _ _ _ E) as (Hp & Hb & _ & Hs & _ & Hsl).
    split.
    + rewrite decide_True by lia. unfold Selected. rewrite Hsl.
      by rewrite bool_decide_eq_false_2 by lia.
    + apply Hends; [done|]. intros x Hx.
      apply (SetSelected_classes_frame _ _ _ _ _ _ E). by rewrite <- Hb.
  - intros [= <- <-]. split.
    + by rewrite decide_False by lia.
    + by apply Hends.
Qed.

(** The first pair added to the new panel. *)
Lemma Add_appends_and_selects_the_first_witness :
  Selected one_pair.1 = 0 ∧ parent one_pair.2 !! 1 = Some 101 ∧
  parent one_pair.2 !! 2 = Some 100.
Proof.
  destruct (Add_appends_and_selects_the_first empty_store [] new_panel.1
              new_panel.2 1 2 one_pair.1 one_pair.2 eq_refl eq_refl)
    as (_ & _ & Hsel & Htab & Hcontent & _).
  split; [|split]; [exact Hsel|exact Htab|exact Hcontent].
Defined.


(** X12.  After any calls that have returned, [renderContent] returns: the
    selected index is negative, and it writes the empty cell, or it is an
    index of the content sequence, and it writes the cell and the content
    at that index. *)
Theorem renderContent_index_in_range (s0 : store) (ks : list call)
    (c : tabPanelImpl) (s : store)
    (STR_TD : string) (renderTd : panelImpl → ID → string)
    (Render_child : store → ID → string) (w : string) :
  run_from s0 ks = Some (c, s) →
  (Selected c < 0 →
     renderContent STR_TD renderTd Render_child c s w = Some (w ++ STR_TD)) ∧
  (0 ≤ Selected c →
     ∃ c2, CompAt (panel c) (Selected c) = Some c2 ∧
       renderContent STR_TD renderTd Render_child c s w
       = Some ((w ++ renderTd (panel c) c2) ++ Render_child s c2)).
Proof.
  intros Hrun. destruct (run_from_refines _ _ _ _ Hrun) as [Hwf _].
  pose proof (wf_selected _ _ Hwf) as Hlt.
  unfold renderContent, Selected, CompAt, CompsCount in *. split; intros Hsel.
  - by rewrite bool_decide_eq_false_2 by lia.
  - destruct (lookup_lt_is_Some_2 (comps (panel c)) (Z.to_nat (selected c)))
      as [c2 Hc2]; [lia|].
    exists c2.
    rewrite (bool_decide_eq_true_2 (selected c >= 0)) by lia.
    rewrite (bool_decide_eq_false_2 (selected c < 0)) by lia.
    by rewrite Hc2.
Qed.

(** The three pairs, the first one selected: the content 2 is written. *)
Lemma renderContent_index_in_range_witness :
  renderContent "<td>" (λ _ _, "<td class=c>") (λ _ c2, if decide (c2 = 2) then "two" else "other")
    three_pairs.1 three_pairs.2 "<tr>"
  = Some "<tr><td class=c>two".
Proof.
  destruct (proj2 (renderContent_index_in_range empty_store three_tabs
                     three_pairs.1 three_pairs.2 "<td>" (λ _ _, "<td class=c>")
                     (λ _ c2, if decide (c2 = 2) then "two" else "other")
                     "<tr>" eq_refl))
    as (c2 & Hc2 & ->); [by vm_compute|].
  injection Hc2 as <-. reflexivity.
Defined.

(** X13.  After any calls that have returned, a click on the tab that was
    added with [content] returns and makes [Selected] the index of
    [content] in the panel, -1 when the panel no longer holds it; the two
    sequences and the parents are as before. *)
Theorem click_selects_the_tab_of_its_content (s0 : store) (ks : list call)
    (c : tabPanelImpl) (s : store) (content : ID) :
  run_from s0 ks = Some (c, s) →
  ∃ c' s', click_handler content c s = Some (c', s') ∧
    Selected c' = CompIdx (panel c) content ∧
    (content ∉ comps (panel c) → Selected c' = -1) ∧
    (∀ i : nat, comps (panel c) !! i = Some content → Selected c' = Z.of_nat i) ∧
    panel c' = panel c ∧ tabBarImpl c' = tabBarImpl c ∧ parent s' = parent s.
Proof.
  intros Hrun. destruct (run_from_refines _ _ _ _ Hrun) as [Hwf _].
  unfold click_handler.
  destruct (SetSelected_wf (CompIdx (panel c) content) c s Hwf)
    as (c' & s' & E & _).
  exists c', s'. split; [done|].
  destruct (SetSelected_frame _ _ _ _ _ E) as (Hp & Hb & _ & Hs & _ & Hsl).
  pose proof (CompIdx_range (panel c) content) as Hrange.
  rewrite bool_decide_eq_false_2 in Hsl by lia.
  unfold Selected. rewrite Hsl. repeat split; try done.
  - intros Hnin. by apply CompIdx_notin.
  - intros i Hi. by apply CompIdx_NoDup; [eapply wf_comps_nodup|].
Qed.

(** A click on the tab of the content 4, and on a tab whose content 9 the
    panel does not hold. *)
Lemma click_selects_the_tab_of_its_content_witness :
  (∃ c' s', click_handler 4 three_pairs.1 three_pairs.2 = Some (c', s') ∧
            Selected c' = 1) ∧
  (∃ c' s', click_handler 9 three_pairs.1 three_pairs.2 = Some (c', s') ∧
            Selected c' = -1).
Proof.
  split.
  - destruct (click_selects_the_tab_of_its_content empty_store three_tabs
                three_pairs.1 three_pairs.2 4 eq_refl)
      as (c' & s' & E & _ & _ & Hi & _).
    exists c', s'. split; [done|]. by apply (Hi 1%nat).
  - destruct (click_selects_the_tab_of_its_content empty_store three_tabs
                three_pairs.1 three_pairs.2 9 eq_refl)
      as (c' & s' & E & _ & Hnin & _).
    exists c', s'. split; [done|]. apply Hnin.
    apply (bool_decide_unpack _). by vm_compute.
Defined.

(** X14.  After any calls that have returned, [SetSelected] with an index of
    the panel returns and [Selected] is that index; the two sequences, the
    placement and the parents are as before, no class of a component
    outside the tab bar has changed, and of the classes of the tabs only
    gwu-TabBar-Selected and gwu-TabBar-NotSelected can have changed. *)
Theorem SetSelected_selects_an_index_of_the_panel (s0 : store)
    (ks : list call) (c : tabPanelImpl) (s : store) (idx : Z) :
  run_from s0 ks = Some (c, s) →
  0 ≤ idx < CompsCount (panel c) →
  ∃ c' s', SetSelected idx c s = Some (c', s') ∧
    Selected c' = idx ∧
    panel c' = panel c ∧ tabBarImpl c' = tabBarImpl c ∧
    tabBarPlacement c' = tabBarPlacement c ∧ parent s' = parent s ∧
    (∀ x, x ∉ comps (tabBarImpl c) → Classes x s' = Classes x s) ∧
    (∀ x class, class ≠ "gwu-TabBar-Selected" →
       class ≠ "gwu-TabBar-NotSelected" →
       (class ∈ Classes x s' ↔ class ∈ Classes x s)).
Proof.
  intros Hrun Hidx. destruct (run_from_refines _ _ _ _ Hrun) as [Hwf _].
  destruct (SetSelected_wf idx c s Hwf) as (c' & s' & E & _).
  exists c', s'. split; [done|].
  destruct (SetSelected_frame _ _ _ _ _ E) as (Hp & Hb & Hpl & Hs & _ & Hsl).
  rewrite bool_decide_eq_false_2 in Hsl by lia.
  split; [done|]. split; [done|]. split; [done|]. split; [done|].
  split; [done|]. split.
  - intros x Hx. by eapply SetSelected_classes_frame.
  - by apply (SetSelected_same_classes _ _ _ _ _ E).
Qed.

(** The last of the three pairs. *)
Lemma SetSelected_selects_an_index_of_the_panel_witness :
  ∃ c' s', SetSelected 2 three_pairs.1 three_pairs.2 = Some (c', s') ∧
           Selected c' = 2.
Proof.
  destruct (SetSelected_selects_an_index_of_the_panel empty_store three_tabs
              three_pairs.1 three_pairs.2 2 eq_refl)
    as (c' & s' & E & Hsel & _); [by vm_compute|].
  by exists c', s'.
Defined.

(** X15.  After any calls that have returned, a [Remove] of a content that
    returns leaves the content and its tab without a parent, the parents of
    all other components and the classes of the removed tab and content as
    they were; the same pair can be added again. *)
Theorem Remove_releases_the_pair (s0 : store) (ks : list call)
    (c : tabPanelImpl) (s : store) (i : nat) (t c2 : ID) (b : bool)
    (c' : tabPanelImpl) (s' : store) :
  run_from s0 ks = Some (c, s) →
  comps (tabBarImpl c) !! i = Some t → comps (panel c) !! i = Some c2 →
  Remove c2 c s = Some (b, (c', s')) →
  parent s' !! t = None ∧ parent s' !! c2 = None ∧
  (∀ x, x ≠ t → x ≠ c2 → parent s' !! x = parent s !! x) ∧
  Classes t s' = Classes t s ∧ Classes c2 s' = Classes c2 s ∧
  is_Some (Add t c2 c' s').
Proof.
  intros Hrun Ht Hi E. destruct (run_from_refines _ _ _ _ Hrun) as [Hwf _].
  unfold Remove in E.
  destruct (Remove_content_wf _ _ _ _ _ _ _ _ Hwf Hi E)
    as (_ & Hwf' & Hc' & Ht' & _).
  assert (Hne : c2 ≠ t).
  { intros ->. apply (wf_disjoint c s t Hwf); by eapply list_elem_of_lookup_2. }
  assert (Htnin : t ∉ comps (tabBarImpl c')).
  { rewrite Ht'. by eapply NoDup_delete_notin; [eapply wf_tabs_nodup|]. }
  assert (Hcnin : c2 ∉ comps (tabBarImpl c')).
  { rewrite Ht'. intros Hin. apply list_elem_of_lookup in Hin as [j Hj].
    destruct (lookup_delete_old _ _ _ _ Hj) as (o & Ho & _).
    apply (wf_disjoint c s c2 Hwf); by eapply list_elem_of_lookup_2. }
  revert E.
  rewrite (Remove_fuel_content 1 c s c2 i t
             (wf_comps_nodup _ _ Hwf) (wf_tabs_nodup _ _ Hwf) Hi Ht).
  set (c1 := mkTabPanel _ _ _ _) in *. set (s1 := setParent c2 None _) in *.
  set (o := if bool_decide (_ < selected c) then _ else _).
  destruct o as [[c3 s3]|] eqn:Ho; [|done].
  cbn [mbind option_bind]. intros [= <- <- <-].
  assert (Hframe : parent s3 = parent s1 ∧
            (∀ x, x ∉ comps (tabBarImpl c1) → Classes x s3 = Classes x s1) ∧
            tabBarImpl c3 = tabBarImpl c1).
  { unfold o in Ho. clear o.
    assert (Hset : ∀ k, SetSelected k c1 s1 = Some (c3, s3) →
              parent s3 = parent s1 ∧
              (∀ x, x ∉ comps (tabBarImpl c1) → Classes x s3 = Classes x s1) ∧
              tabBarImpl c3 = tabBarImpl c1).
    { intros k Ek.
      destruct (SetSelected_frame _ _ _ _ _ Ek) as (_ & Hb & _ & Hs & _).
      split; [done|]. split; [|done].
      intros x Hx. by eapply SetSelected_classes_frame. }
    repeat case_bool_decide; try (by eapply Hset); by injection Ho as <- <-. }
  destruct Hframe as (Hp & Hcl & Hb).
  assert (Hparent : ∀ x, parent s3 !! x
            = if decide (x = c2) then None
              else if decide (x = t) then None else parent s !! x).
  { intros x. rewrite Hp. unfold s1. by rewrite !parent_setParent. }
  rewrite Hb in Htnin, Hcnin.
  rewrite !Hcl by done. unfold s1. rewrite !Classes_setParent.
  split; [|split; [|split; [|split; [|split]]]]; try done.
  - rewrite Hparent. destruct (decide (t = c2)); [done|].
    by rewrite decide_True.
  - by rewrite Hparent, decide_True.
  - intros x H1 H2. by rewrite Hparent, !decide_False.
  - apply Add_is_Some; [done| | |done]; rewrite Hparent.
    + rewrite decide_False by done. by rewrite decide_True.
    + by rewrite decide_True.
Qed.

(** The middle pair of the three, removed and free to be added again. *)
Lemma Remove_releases_the_pair_witness :
  parent middle_removed.2 !! 3 = None ∧ parent middle_removed.2 !! 4 = None ∧
  is_Some (Add 3 4 middle_removed.1 middle_removed.2).
Proof.
  destruct (Remove_releases_the_pair empty_store three_tabs three_pairs.1
              three_pairs.2 1 3 4 true middle_removed.1 middle_removed.2
              eq_refl eq_refl eq_refl eq_refl)
    as (H3 & H4 & _ & _ & _ & Hadd).
  split; [|split]; [exact H3|exact H4|exact Hadd].
Defined.

(** X16.  After any calls that have returned, [Remove] of a component that
    is neither a content nor a tab of the panel returns [false] and changes
    nothing, and [Remove] of a tab is [Remove] of the content at the index
    of the tab. *)
Theorem Remove_of_a_tab_or_of_neither (s0 : store) (ks : list call)
    (c : tabPanelImpl) (s : store) :
  run_from s0 ks = Some (c, s) →
  (∀ c2, c2 ∉ comps (panel c) → c2 ∉ comps (tabBarImpl c) →
     Remove c2 c s = Some (false, (c, s))) ∧
  (∀ (i : nat) t, comps (tabBarImpl c) !! i = Some t →
     ∃ c3, comps (panel c) !! i = Some c3 ∧ Remove t c s = Remove c3 c s).
Proof.
  intros Hrun. destruct (run_from_refines _ _ _ _ Hrun) as [Hwf _]. split.
  - intros c2 Hnin Hnint. by apply Remove_fuel_absent.
  - intros i t Ht.
    assert (Hnin : t ∉ comps (panel c)).
    { intros ?. eapply wf_disjoint; [done| |done]. by eapply list_elem_of_lookup_2. }
    destruct (lookup_lt_is_Some_2 (comps (panel c)) i) as [c3 Hc3].
    { rewrite <- (wf_length _ _ Hwf). by eapply lookup_lt_Some. }
    exists c3. split; [done|]. unfold Remove.
    rewrite (Remove_fuel_tab 1 _ _ _ i Hnin (wf_tabs_nodup _ _ Hwf) Ht), Hc3.
    cbn [mbind option_bind]. symmetry. apply (Remove_fuel_member 1).
    by eapply list_elem_of_lookup_2.
Qed.

(** The component 9 is not in the panel; 3 is the tab of the content 4. *)
Lemma Remove_of_a_tab_or_of_neither_witness :
  Remove 9 three_pairs.1 three_pairs.2 = Some (false, three_pairs) ∧
  Remove 3 three_pairs.1 three_pairs.2 = Remove 4 three_pairs.1 three_pairs.2.
Proof.
  destruct (Remove_of_a_tab_or_of_neither empty_store three_tabs
              three_pairs.1 three_pairs.2 eq_refl) as [Habsent Htab].
  split.
  - apply Habsent; apply (bool_decide_unpack _); by vm_compute.
  - destruct (Htab 1%nat 3 eq_refl) as (c3 & Hc3 & ->).
    by injection Hc3 as <-.
Defined.

End TabStyleFacts.
